(** * A verification development of [aif/cache_nim.py]

    Shallow embedding of the disk-persisted memoisation layer
    [query_nim_cached]: the canonical JSON encoder [_stable_json_dumps],
    the key derivation [_hash_key] (with SHA-1 written out), the JSON
    reader [_read_json], the write protocol [_atomic_write] and the
    orchestrator itself, as a state and exception monad over a model of
    the file system. *)

From Stdlib Require Import ZArith NArith Ascii String List Bool Lia.
From Stdlib Require Import Permutation Sorting.Sorted.
From Stdlib Require Floats.
Import ListNotations.
Import (notations) Floats.PrimFloat.
Import Floats.SpecFloat.
Set Warnings "-register-all".
Open Scope string_scope.

(* ------------------------------------------------------------------ *)
(** ** Python values *)

(** The values that [json.dumps] sees.  A Python [str] is a sequence of
    code points; the model's characters are [ascii], i.e. code points
    below 256.  An [int] is an integer, a [float] an IEEE binary64
    number (Rocq's primitive floats).  A [dict] is an association
    list in insertion order; [VOther r k] is any object that [json]
    cannot encode natively, carrying its [str()] rendering [r] and the
    number [k] of recursion levels that this [str()] call takes (it is
    taken to raise nothing of its own). *)
Inductive Value : Type :=
| VNull
| VBool (b : bool)
| VInt (z : Z)
| VFloat (f : PrimFloat.float)
| VStr (s : string)
| VList (l : list Value)
| VDict (d : list (string * Value))
| VOther (repr : string) (levels : nat).

(** Induction principle that reaches the elements of lists and dicts. *)
Section ValueInd.
Variable P : Value -> Prop.
Hypothesis HNull : P VNull.
Hypothesis HBool : forall b, P (VBool b).
Hypothesis HInt : forall z, P (VInt z).
Hypothesis HFloat : forall f, P (VFloat f).
Hypothesis HStr : forall s, P (VStr s).
Hypothesis HList : forall l, Forall P l -> P (VList l).
Hypothesis HDict : forall d, Forall (fun kv => P (snd kv)) d -> P (VDict d).
Hypothesis HOther : forall r k, P (VOther r k).

Fixpoint value_ind' (v : Value) : P v :=
  match v with
  | VNull => HNull
  | VBool b => HBool b
  | VInt z => HInt z
  | VFloat f => HFloat f
  | VStr s => HStr s
  | VList l =>
      HList l
        ((fix go (l : list Value) : Forall P l :=
            match l with
            | [] => Forall_nil _
            | x :: r => Forall_cons _ (value_ind' x) (go r)
            end) l)
  | VDict d =>
      HDict d
        ((fix go (d : list (string * Value)) : Forall (fun kv => P (snd kv)) d :=
            match d with
            | [] => Forall_nil _
            | kv :: r => Forall_cons _ (value_ind' (snd kv)) (go r)
            end) d)
  | VOther r k => HOther r k
  end.
End ValueInd.

(** Equal contents: the same scalars (the same float), lists with equal
    elements, dicts with the same keys and equal values in any insertion
    order; a dict never holds a key twice.  This is Python's [==] on
    these values except that [==] also relates values of different types
    ([True == 1 == 1.0]) and the two zeros ([0.0 == -0.0]), and finds a
    float nan equal to nothing. *)
Inductive py_eq : Value -> Value -> Prop :=
| py_eq_null : py_eq VNull VNull
| py_eq_bool b : py_eq (VBool b) (VBool b)
| py_eq_int z : py_eq (VInt z) (VInt z)
| py_eq_float f : py_eq (VFloat f) (VFloat f)
| py_eq_str s : py_eq (VStr s) (VStr s)
| py_eq_other r k : py_eq (VOther r k) (VOther r k)
| py_eq_list l1 l2 : Forall2 py_eq l1 l2 -> py_eq (VList l1) (VList l2)
| py_eq_dict d1 d2 d2' :
    NoDup (map fst d1) ->
    Permutation d2 d2' ->
    Forall2 (fun kv1 kv2 => fst kv1 = fst kv2 /\ py_eq (snd kv1) (snd kv2)) d1 d2' ->
    py_eq (VDict d1) (VDict d2).

(* ------------------------------------------------------------------ *)
(** ** Python's ordering of [str] keys *)

(** [<] on [str]: lexicographic on code points, a proper prefix first. *)
Fixpoint str_ltb (s1 s2 : string) : bool :=
  match s1, s2 with
  | EmptyString, EmptyString => false
  | EmptyString, String _ _ => true
  | String _ _, EmptyString => false
  | String a r1, String b r2 =>
      if (N_of_ascii a <? N_of_ascii b)%N then true
      else if (N_of_ascii a =? N_of_ascii b)%N then str_ltb r1 r2
      else false
  end.

Section SortItems.
Context {A : Type}.

Fixpoint insert_item (x : string * A) (l : list (string * A)) : list (string * A) :=
  match l with
  | [] => [x]
  | y :: r => if str_ltb (fst x) (fst y) then x :: y :: r else y :: insert_item x r
  end.

(** [sorted(dct.items())]: the items of a dict (unique keys) by key. *)
Definition sort_items (l : list (string * A)) : list (string * A) :=
  fold_right insert_item [] l.
End SortItems.

(* ------------------------------------------------------------------ *)
(** ** [_stable_json_dumps] *)

Definition chr (n : nat) : ascii := ascii_of_nat n.
Definition code (c : ascii) : nat := nat_of_ascii c.
Definition str1 (c : ascii) : string := String c EmptyString.
Definition dquote : ascii := chr 34.
Definition bslash : ascii := chr 92.

Definition hex_digit (n : nat) : ascii :=
  if Nat.ltb n 10 then chr (48 + n) else chr (87 + n).

(** ['\\u{0:04x}'.format(n)] for a code point [n < 256]. *)
Definition u_escape (n : nat) : string :=
  String bslash (String "u" (String "0" (String "0"
    (String (hex_digit (n / 16)) (String (hex_digit (n mod 16)) EmptyString))))).

(** One character of [py_encode_basestring_ascii] (the [ensure_ascii]
    string encoder): the escapes of [ESCAPE_DCT], [\\uXXXX] for every other
    character outside the printable range [' '..'~']. *)
Definition escape_char (c : ascii) : string :=
  let n := code c in
  if Nat.eqb n 34 then String bslash (str1 dquote)
  else if Nat.eqb n 92 then String bslash (str1 bslash)
  else if Nat.eqb n 10 then String bslash (str1 "n")
  else if Nat.eqb n 13 then String bslash (str1 "r")
  else if Nat.eqb n 9 then String bslash (str1 "t")
  else if Nat.eqb n 8 then String bslash (str1 "b")
  else if Nat.eqb n 12 then String bslash (str1 "f")
  else if Nat.ltb n 32 || Nat.leb 127 n then u_escape n
  else str1 c.

Fixpoint escape_body (s : string) : string :=
  match s with
  | EmptyString => EmptyString
  | String c r => (escape_char c ++ escape_body r)%string
  end.

Definition encode_str (s : string) : string :=
  String dquote (escape_body s ++ str1 dquote)%string.

(** Decimal digits of a natural number, most significant first. *)
Fixpoint digits_acc (fuel : nat) (n : N) (acc : string) : string :=
  match fuel with
  | O => acc
  | S f =>
      let acc' := String (chr (48 + N.to_nat (n mod 10))) acc in
      if (n <? 10)%N then acc' else digits_acc f (n / 10)%N acc'
  end.

Definition n_repr (n : N) : string :=
  digits_acc (S (N.size_nat n)) n EmptyString.

(** [int.__repr__]. *)
Definition int_repr (z : Z) : string :=
  match z with
  | Z0 => "0"%string
  | Zpos p => n_repr (Npos p)
  | Zneg p => String "-" (n_repr (Npos p))
  end.

(* ------------------------------------------------------------------ *)
(** ** Floats: decimal text to binary64 and back *)

(** The binary64 number nearest to [m * 10 ^ e] (ties to even), with
    sign [neg]: what [float()] makes of a decimal numeral.  The two
    shortcuts only skip work: from [10 ^ 310] on every value rounds to
    infinity, below [10 ^ -324] (which is less than half the least
    subnormal) to zero. *)
Definition decimal_to_sf (neg : bool) (m : N) (e : Z) : spec_float :=
  match m with
  | N0 => S754_zero neg
  | Npos p =>
      if (309 <? e)%Z then S754_infinity neg
      else if (e + Z.of_nat (Pos.size_nat p) <? -324)%Z then S754_zero neg
      else if (0 <=? e)%Z then
        binary_normalize FloatOps.prec FloatOps.emax
          (if neg then Zneg p * 10 ^ e else Zpos p * 10 ^ e)%Z 0 neg
      else SFdiv FloatOps.prec FloatOps.emax (S754_finite neg p 0)
             (S754_finite false (Z.to_pos (10 ^ (- e))) 0)
  end.

Definition sf_eqb (a b : spec_float) : bool :=
  match a, b with
  | S754_zero s, S754_zero s' => Bool.eqb s s'
  | S754_infinity s, S754_infinity s' => Bool.eqb s s'
  | S754_nan, S754_nan => true
  | S754_finite s m e, S754_finite s' m' e' => Bool.eqb s s' && Pos.eqb m m' && Z.eqb e e'
  | _, _ => false
  end.

(** [float.__repr__] ([repr] style ['r'] of [PyOS_double_to_string]):
    the shortest decimal that reads back as the number, in [%r] layout. *)

(** Decimal digits of a positive integer. *)
Definition ndigits (z : Z) : Z := Z.of_nat (String.length (int_repr z)).

(** How [P / Q] compares with [10 ^ k]. *)
Definition cmp_pow10 (P Q k : Z) : comparison :=
  if (0 <=? k)%Z then Z.compare P (Q * 10 ^ k) else Z.compare (P * 10 ^ (- k)) Q.

(** The decimal exponent [k] of [P / Q]: [10 ^ k <= P / Q < 10 ^ (k + 1)]. *)
Definition dec_exp (P Q : Z) : Z :=
  let k0 := (ndigits P - ndigits Q)%Z in
  match cmp_pow10 P Q k0 with Lt => (k0 - 1)%Z | _ => k0 end.

(** [m * 2 ^ e] as a fraction. *)
Definition frac_of (m : positive) (e : Z) : Z * Z :=
  if (0 <=? e)%Z then (Zpos m * 2 ^ e, 1)%Z else (Zpos m, 2 ^ (- e))%Z.

(** [P / Q] cut to [n] significant digits: [d * 10 ^ E] with [E] the
    exponent of its last digit, and the remainder [r / den] in units of
    [10 ^ E]. *)
Definition trunc_at (P Q k : Z) (n : nat) : Z * Z * Z * Z :=
  let E := (k - Z.of_nat n + 1)%Z in
  let '(num, den) := if (0 <=? E)%Z then (P, Q * 10 ^ E)%Z else (P * 10 ^ (- E), Q)%Z in
  (num / den, num mod den, den, E)%Z.

Definition reads_as (d E : Z) (target : spec_float) : bool :=
  (0 <? d)%Z && sf_eqb (decimal_to_sf false (Z.to_N d) E) target.

(** From [n] digits on, the first length at which the decimal below or
    above [P / Q] reads back as [target] (the nearer one if both do);
    past [17] digits, the nearest 17-digit decimal, which always does. *)
Fixpoint shortest (P Q k : Z) (target : spec_float) (n : nat) (fuel : nat) : Z * Z :=
  let '(d, r, den, E) := trunc_at P Q k n in
  let lo := reads_as d E target in
  let hi := (0 <? r)%Z && reads_as (d + 1) E target in
  match fuel with
  | O => if (2 * r <? den)%Z then (d, E) else if (den <? 2 * r)%Z then (d + 1, E)%Z
         else if Z.even d then (d, E) else (d + 1, E)%Z
  | S f =>
      if lo && hi then (if (2 * r <=? den)%Z then (d, E) else (d + 1, E)%Z)
      else if lo then (d, E) else if hi then (d + 1, E)%Z
      else shortest P Q k target (S n) f
  end.

Fixpoint strip_zeros (fuel : nat) (d E : Z) : Z * Z :=
  match fuel with
  | O => (d, E)
  | S f => if (0 <? d)%Z && (d mod 10 =? 0)%Z then strip_zeros f (d / 10) (E + 1) else (d, E)
  end.

Fixpoint zeros (n : nat) : string :=
  match n with O => EmptyString | S k => String "0" (zeros k) end.

(** The layout of [float_repr_style 'short']: digits [ds] with the
    decimal point after [decpt] of them; exponent notation when
    [decpt <= -4] or [decpt > 16], with a sign and at least two exponent
    digits; otherwise positional, with a [.0] for whole numbers. *)
Definition format_digits (ds : string) (decpt : Z) : string :=
  let len := Z.of_nat (String.length ds) in
  if (decpt <=? -4)%Z || (16 <? decpt)%Z then
    let x := (decpt - 1)%Z in
    let mant := match ds with
                | String c EmptyString => str1 c
                | String c r => String c ("." ++ r)
                | EmptyString => EmptyString
                end in
    mant ++ "e" ++ (if (x <? 0)%Z then "-" else "+") ++ (if (Z.abs x <? 10)%Z then "0" else "")
      ++ int_repr (Z.abs x)
  else if (decpt <=? 0)%Z then "0." ++ zeros (Z.to_nat (- decpt)) ++ ds
  else if (decpt <? len)%Z then
    substring 0 (Z.to_nat decpt) ds ++ "." ++ substring (Z.to_nat decpt) (Z.to_nat (len - decpt)) ds
  else ds ++ zeros (Z.to_nat (decpt - len)) ++ ".0".

Definition repr_finite (m : positive) (e : Z) : string :=
  let '(P, Q) := frac_of m e in
  let k := dec_exp P Q in
  let '(d0, E0) := shortest P Q k (S754_finite false m e) 1 16 in
  let '(d, E) := strip_zeros 20 d0 E0 in
  let ds := int_repr d in
  format_digits ds (Z.of_nat (String.length ds) + E).

Definition float_repr (f : PrimFloat.float) : string :=
  match FloatOps.Prim2SF f with
  | S754_zero s => if s then "-0.0" else "0.0"
  | S754_infinity s => if s then "-inf" else "inf"
  | S754_nan => "nan"
  | S754_finite s m e => (if s then "-" else "") ++ repr_finite m e
  end.

(** [floatstr] of the [json] encoder ([allow_nan=True]). *)
Definition float_json (f : PrimFloat.float) : string :=
  match FloatOps.Prim2SF f with
  | S754_nan => "NaN"
  | S754_infinity false => "Infinity"
  | S754_infinity true => "-Infinity"
  | _ => float_repr f
  end.

(** The exceptions of the run. *)
Inductive Exn : Type :=
| OSError | JSONDecodeError | AttributeError | TypeError | ValueError | OverflowError
| RecursionError
| FetchError      (** whatever [fetch_fn] raises *)
| HookError.      (** whatever [save_extra] raises *)

(** [int.__str__] refuses more than [sys.get_int_max_str_digits()]
    digits (4300 by default), and so does [int(text)]. *)
Definition int_max_str_digits : nat := 4300.

Definition int_digits_ok (z : Z) : bool :=
  Nat.leb (String.length (n_repr (Z.abs_N z))) int_max_str_digits.

(** The first exception of a sequence of steps. *)
Definition first_exn (l : list (option Exn)) : option Exn :=
  fold_right (fun o acc => match o with Some e => Some e | None => acc end) None l.

(** The exception [json.dumps] raises on [v], if any, when [budget]
    levels of recursion are left to its encoder ([Py_EnterRecursiveCall]).
    The encoder goes through the value in order, a dict's members by key.
    A list or a dict enters one level before it looks at its contents,
    and raises [RecursionError] when none is left.  An object
    [VOther r k] is handed to [default=str], then one level is entered
    for the text; it raises [RecursionError] when at most [k] levels are
    left.  An [int] of more than [int_max_str_digits] digits raises
    [ValueError].  No text is returned when it raises. *)
Fixpoint dumps_exn (budget : nat) (v : Value) {struct v} : option Exn :=
  match v with
  | VInt z => if int_digits_ok z then None else Some ValueError
  | VList l =>
      match budget with
      | O => Some RecursionError
      | S b => first_exn (map (dumps_exn b) l)
      end
  | VDict d =>
      match budget with
      | O => Some RecursionError
      | S b => first_exn (map snd (sort_items (map (fun kv => (fst kv, dumps_exn b (snd kv))) d)))
      end
  | VOther _ k => if Nat.leb budget k then Some RecursionError else None
  | _ => None
  end.

Definition dumps_error (budget : nat) (v : Value) : bool :=
  match dumps_exn budget v with Some _ => true | None => false end.

(** [json.dumps(obj, sort_keys=True, separators=(",", ":"), default=str)]
    on a value it does not refuse (see [dumps_exn]).  A dict's members
    are encoded, then ordered by key, then joined. *)
Fixpoint _stable_json_dumps (v : Value) : string :=
  match v with
  | VNull => "null"
  | VBool true => "true"
  | VBool false => "false"
  | VInt z => int_repr z
  | VFloat f => float_json f
  | VStr s => encode_str s
  | VList l => ("[" ++ String.concat "," (map _stable_json_dumps l) ++ "]")%string
  | VDict d =>
      ("{" ++ String.concat ","
        (map (fun kv => encode_str (fst kv) ++ ":" ++ snd kv)
           (sort_items (map (fun kv => (fst kv, _stable_json_dumps (snd kv))) d)))
      ++ "}")%string
  | VOther r _ => encode_str r
  end.

(* ------------------------------------------------------------------ *)
(** ** [hashlib.sha1(...).hexdigest()] *)

Module SHA1.
Local Open Scope Z_scope.

Definition mask32 (x : Z) : Z := Z.land x (2 ^ 32 - 1).
Definition rotl (n x : Z) : Z :=
  mask32 (Z.lor (Z.shiftl x n) (Z.shiftr x (32 - n))).
Definition add32 (x y : Z) : Z := mask32 (x + y).

(** Message padding: [0x80], zeros, then the bit length on 8 bytes. *)
Definition be_bytes (k : nat) (x : Z) : list Z :=
  map (fun i => Z.land (Z.shiftr x (8 * Z.of_nat (k - 1 - i))) 255) (seq 0 k).

Definition pad (m : list Z) : list Z :=
  let len := Z.of_nat (length m) in
  let zeros := Z.to_nat ((55 - len) mod 64) in
  (m ++ [128] ++ repeat 0 zeros ++ be_bytes 8 (8 * len))%list.

Fixpoint to_words (m : list Z) : list Z :=
  match m with
  | a :: b :: c :: d :: r =>
      (Z.shiftl a 24 + Z.shiftl b 16 + Z.shiftl c 8 + d) :: to_words r
  | _ => []
  end.

Fixpoint blocks (fuel : nat) (ws : list Z) : list (list Z) :=
  match fuel, ws with
  | O, _ | _, [] => []
  | S f, _ => firstn 16 ws :: blocks f (skipn 16 ws)
  end.

(** Message schedule: [w[t] = rotl 1 (w[t-3] ^ w[t-8] ^ w[t-14] ^ w[t-16])]. *)
Fixpoint extend (n : nat) (w : list Z) : list Z :=
  match n with
  | O => w
  | S n' =>
      let t := length w in
      let x := rotl 1 (Z.lxor (Z.lxor (nth (t - 3) w 0) (nth (t - 8) w 0))
                              (Z.lxor (nth (t - 14) w 0) (nth (t - 16) w 0))) in
      extend n' (w ++ [x])%list
  end.

Definition state : Type := (Z * Z * Z * Z * Z)%type.

Definition h_init : state :=
  (1732584193, 4023233417, 2562383102, 271733878, 3285377520).

Definition f_k (t : nat) (b c d : Z) : Z * Z :=
  if Nat.ltb t 20 then
    (Z.lor (Z.land b c) (Z.land (Z.lxor b (2 ^ 32 - 1)) d), 1518500249)
  else if Nat.ltb t 40 then (Z.lxor (Z.lxor b c) d, 1859775393)
  else if Nat.ltb t 60 then
    (Z.lor (Z.lor (Z.land b c) (Z.land b d)) (Z.land c d), 2400959708)
  else (Z.lxor (Z.lxor b c) d, 3395469782).

Definition round (s : state) (tw : nat * Z) : state :=
  let '(a, b, c, d, e) := s in
  let '(t, w) := tw in
  let '(f, k) := f_k t b c d in
  let tmp := add32 (add32 (add32 (add32 (rotl 5 a) f) e) k) w in
  (tmp, a, rotl 30 b, c, d).

Definition compress (h : state) (block : list Z) : state :=
  let ws := extend 64 block in
  let '(a, b, c, d, e) := fold_left round (combine (seq 0 80) ws) h in
  let '(h0, h1, h2, h3, h4) := h in
  (add32 h0 a, add32 h1 b, add32 h2 c, add32 h3 d, add32 h4 e).

Definition digest (m : list Z) : list Z :=
  let ws := to_words (pad m) in
  let '(h0, h1, h2, h3, h4) := fold_left compress (blocks (length ws) ws) h_init in
  (be_bytes 4 h0 ++ be_bytes 4 h1 ++ be_bytes 4 h2 ++ be_bytes 4 h3 ++ be_bytes 4 h4)%list.
End SHA1.

(** [str.encode("utf-8")] on code points below 256. *)
Fixpoint utf8_encode (s : string) : list Z :=
  match s with
  | EmptyString => []
  | String c r =>
      let n := Z.of_nat (code c) in
      if (n <? 128)%Z then n :: utf8_encode r
      else (192 + n / 64)%Z :: (128 + n mod 64)%Z :: utf8_encode r
  end.

Definition hex_byte (b : Z) : string :=
  String (hex_digit (Z.to_nat (b / 16))) (str1 (hex_digit (Z.to_nat (b mod 16)))).

Fixpoint hexdigest (bs : list Z) : string :=
  match bs with
  | [] => EmptyString
  | b :: r => hex_byte b ++ hexdigest r
  end.

Definition sha1_hexdigest (s : string) : string :=
  hexdigest (SHA1.digest (utf8_encode s)).

(** [_hash_key]: the material dict, [version or ""], SHA-1 of the UTF-8
    bytes of its canonical encoding.  This is the key of a payload that
    [json.dumps] accepts ([dumps_error] is false); for another payload
    the call raises [ValueError] here, before it touches any file, a case
    the model of [query_nim_cached] leaves out. *)
Definition material (endpoint : string) (payload : Value) (version : option string) : Value :=
  VDict [("endpoint", VStr endpoint);
         ("payload", payload);
         ("version", VStr (match version with Some v => v | None => EmptyString end))].

Definition _hash_key (endpoint : string) (payload : Value) (version : option string) : string :=
  sha1_hexdigest (_stable_json_dumps (material endpoint payload version)).

(** Lower-case hexadecimal digits only. *)
Definition is_hex_char (c : ascii) : bool :=
  (Nat.leb 48 (code c) && Nat.leb (code c) 57) || (Nat.leb 97 (code c) && Nat.leb (code c) 102).

Fixpoint all_hex (s : string) : bool :=
  match s with
  | EmptyString => true
  | String c r => is_hex_char c && all_hex r
  end.


(* ------------------------------------------------------------------ *)
(** ** Python dicts and [json.loads] *)

(** [d[k] = v]: an existing key keeps its position, a new key goes last. *)
Fixpoint dict_set (d : list (string * Value)) (k : string) (v : Value) : list (string * Value) :=
  match d with
  | [] => [(k, v)]
  | (k', v') :: r => if String.eqb k' k then (k, v) :: r else (k', v') :: dict_set r k v
  end.

(** [dict(pairs)]: later duplicates overwrite earlier ones. *)
Definition dict_of_pairs (pairs : list (string * Value)) : list (string * Value) :=
  fold_left (fun d kv => dict_set d (fst kv) (snd kv)) pairs [].

(** [d.get(k)]. *)
Fixpoint dict_get (d : list (string * Value)) (k : string) : option Value :=
  match d with
  | [] => None
  | (k', v) :: r => if String.eqb k' k then Some v else dict_get r k
  end.

(** JSON whitespace [' \t\n\r']. *)
Definition is_ws (c : ascii) : bool :=
  let n := code c in Nat.eqb n 32 || Nat.eqb n 9 || Nat.eqb n 10 || Nat.eqb n 13.

Fixpoint skip_ws (s : string) : string :=
  match s with
  | String c r => if is_ws c then skip_ws r else s
  | EmptyString => EmptyString
  end.

Definition is_digit (c : ascii) : bool := Nat.leb 48 (code c) && Nat.leb (code c) 57.
Definition digit_val (c : ascii) : N := N.of_nat (code c - 48).

Fixpoint scan_digits (s : string) (acc : N) : N * string :=
  match s with
  | String c r => if is_digit c then scan_digits r (acc * 10 + digit_val c)%N else (acc, s)
  | EmptyString => (acc, s)
  end.

Definition digits_value (ds : string) : N := fst (scan_digits ds 0).

(** The longest prefix of digits, and the rest. *)
Fixpoint digits_span (s : string) : string * string :=
  match s with
  | String c r =>
      if is_digit c then let '(ds, rest) := digits_span r in (String c ds, rest)
      else (EmptyString, s)
  | EmptyString => (EmptyString, EmptyString)
  end.

(** [_match_number_unicode], piece by piece: an optional ['-'], ... *)
Definition take_minus (s : string) : bool * string :=
  match s with
  | String c r => if Nat.eqb (code c) 45 then (true, r) else (false, s)
  | EmptyString => (false, s)
  end.

(** ... ['0'] or a non-zero digit and digits, ... *)
Definition int_part (s : string) : option (string * string) :=
  match s with
  | String c r =>
      if Nat.eqb (code c) 48 then Some (str1 c, r)
      else if is_digit c then let '(ds, rest) := digits_span r in Some (String c ds, rest)
      else None
  | EmptyString => None
  end.

(** ... ['.'] and digits, only when a digit follows the ['.'], ... *)
Definition frac_part (s : string) : option string * string :=
  match s with
  | String c (String d r) =>
      if Nat.eqb (code c) 46 && is_digit d then
        let '(ds, rest) := digits_span r in (Some (String d ds), rest)
      else (None, s)
  | _ => (None, s)
  end.

(** An optional ['-'] or ['+']. *)
Definition take_sign (s : string) : bool * string :=
  match s with
  | String c r =>
      if Nat.eqb (code c) 45 then (true, r) else if Nat.eqb (code c) 43 then (false, r) else (false, s)
  | EmptyString => (false, s)
  end.

(** ... and ['e'] or ['E'], an optional sign and digits, given back
    unread when no digit follows. *)
Definition exp_part (s : string) : option (bool * string) * string :=
  match s with
  | String c r =>
      if Nat.eqb (code c) 101 || Nat.eqb (code c) 69 then
        let '(eneg, r1) := take_sign r in
        match digits_span r1 with
        | (EmptyString, _) => (None, s)
        | (ds, rest) => (Some (eneg, ds), rest)
        end
      else (None, s)
  | EmptyString => (None, s)
  end.

(** A number token: sign, integer digits, fraction digits, exponent. *)
Record NumTok : Type := mkNumTok {
  nt_neg : bool;
  nt_int : string;
  nt_frac : option string;
  nt_exp : option (bool * string) }.

Definition scan_number (s : string) : option (NumTok * string) :=
  let '(neg, s1) := take_minus s in
  match int_part s1 with
  | Some (ip, s2) =>
      let '(fp, s3) := frac_part s2 in
      let '(ep, s4) := exp_part s3 in
      Some (mkNumTok neg ip fp ep, s4)
  | None => None
  end.

Definition signed (neg : bool) (n : N) : Z := if neg then (- Z.of_N n)%Z else Z.of_N n.

(** The value of the decimal numeral [-? ip.fp e±ed]. *)
Definition decimal_float (neg : bool) (ip fp : string) (ep : option (bool * string))
  : PrimFloat.float :=
  let e := match ep with Some (en, ed) => signed en (digits_value ed) | None => 0%Z end in
  FloatOps.SF2Prim (decimal_to_sf neg (digits_value (ip ++ fp)) (e - Z.of_nat (String.length fp))).

(** A token without fraction and exponent is an [int] ([int(text)],
    which refuses more than [int_max_str_digits] digits with
    [ValueError]); any other is a [float] ([float(text)]). *)
Definition number_value (t : NumTok) : option Value :=
  match t with
  | mkNumTok neg ip None None =>
      if Nat.leb (String.length ip) int_max_str_digits
      then Some (VInt (signed neg (digits_value ip))) else None
  | mkNumTok neg ip fp ep =>
      Some (VFloat (decimal_float neg ip (match fp with Some f => f | None => EmptyString end) ep))
  end.

Definition hex_val (c : ascii) : option nat :=
  let n := code c in
  if Nat.leb 48 n && Nat.leb n 57 then Some (n - 48)
  else if Nat.leb 97 n && Nat.leb n 102 then Some (n - 87)
  else if Nat.leb 65 n && Nat.leb n 70 then Some (n - 55)
  else None.

(** The one-character escapes of [BACKSLASH]. *)
Definition simple_unescape (e : ascii) : option ascii :=
  let n := code e in
  if Nat.eqb n 34 then Some dquote
  else if Nat.eqb n 92 then Some bslash
  else if Nat.eqb n 47 then Some "/"%char
  else if Nat.eqb n 98 then Some (chr 8)
  else if Nat.eqb n 102 then Some (chr 12)
  else if Nat.eqb n 110 then Some (chr 10)
  else if Nat.eqb n 114 then Some (chr 13)
  else if Nat.eqb n 116 then Some (chr 9)
  else None.

(** [scanstring] in strict mode, from just after the opening quote:
    the decoded text and the rest of the input.  A [\\uXXXX] escape of a
    code point of 256 or more leaves the model's character set and is
    refused. *)
Fixpoint scanstring (s : string) : option (string * string) :=
  match s with
  | EmptyString => None
  | String c r =>
      if Nat.eqb (code c) 34 then Some (EmptyString, r)
      else if Nat.eqb (code c) 92 then
        match r with
        | String e r' =>
            if Nat.eqb (code e) 117 then
              match r' with
              | String h1 (String h2 (String h3 (String h4 t))) =>
                  match hex_val h1, hex_val h2, hex_val h3, hex_val h4 with
                  | Some a, Some b, Some c', Some d =>
                      let n := ((a * 16 + b) * 16 + c') * 16 + d in
                      if Nat.ltb n 256 then
                        match scanstring t with
                        | Some (x, rest) => Some (String (chr n) x, rest)
                        | None => None
                        end
                      else None
                  | _, _, _, _ => None
                  end
              | _ => None
              end
            else
              match simple_unescape e with
              | Some c' =>
                  match scanstring r' with
                  | Some (x, rest) => Some (String c' x, rest)
                  | None => None
                  end
              | None => None
              end
        | EmptyString => None
        end
      else if Nat.ltb (code c) 32 then None
      else
        match scanstring r with
        | Some (x, rest) => Some (String c x, rest)
        | None => None
        end
  end.

Definition strip_prefix (p s : string) : option string :=
  if String.prefix p s then Some (substring (String.length p) (String.length s - String.length p) s)
  else None.

(** The named constants of [scan_once]: [null], [true], [false], and
    those of [parse_constant], [NaN], [Infinity] and [-Infinity].  They
    begin with distinct characters, so trying them in turn is the
    [switch] on the first character. *)
Definition scan_constant (s : string) : option (Value * string) :=
  match strip_prefix "null" s with
  | Some rest => Some (VNull, rest)
  | None =>
  match strip_prefix "true" s with
  | Some rest => Some (VBool true, rest)
  | None =>
  match strip_prefix "false" s with
  | Some rest => Some (VBool false, rest)
  | None =>
  match strip_prefix "NaN" s with
  | Some rest => Some (VFloat PrimFloat.nan, rest)
  | None =>
  match strip_prefix "Infinity" s with
  | Some rest => Some (VFloat PrimFloat.infinity, rest)
  | None =>
  match strip_prefix "-Infinity" s with
  | Some rest => Some (VFloat PrimFloat.neg_infinity, rest)
  | None => None
  end end end end end end.

(** [scan_once], [JSONArray] and [JSONObject]; [fuel] bounds the number of
    values and members read, [depth] is the number of recursion levels
    left ([Py_EnterRecursiveCall]): an object or an array enters one
    before it reads its contents, and raises [RecursionError] when none
    is left.  A string, an object, an array, a named constant, else a
    number. *)
Fixpoint scan_once (fuel depth : nat) (s : string) {struct fuel} : option (Value * string) :=
  match fuel with
  | O => None
  | S f =>
      match s with
      | EmptyString => None
      | String c r =>
          let n := code c in
          if Nat.eqb n 34 then
            match scanstring r with Some (x, rest) => Some (VStr x, rest) | None => None end
          else if Nat.eqb n 123 then
            match depth with
            | O => None
            | S d =>
                match skip_ws r with
                | String c' r' =>
                    if Nat.eqb (code c') 125 then Some (VDict [], r')
                    else if Nat.eqb (code c') 34 then parse_members f d r' []
                    else None
                | EmptyString => None
                end
            end
          else if Nat.eqb n 91 then
            match depth with
            | O => None
            | S d =>
                match skip_ws r with
                | String c' r' =>
                    if Nat.eqb (code c') 93 then Some (VList [], r')
                    else parse_elems f d (skip_ws r) []
                | EmptyString => None
                end
            end
          else
            match scan_constant s with
            | Some r => Some r
            | None =>
                match scan_number s with
                | Some (t, rest) =>
                    match number_value t with Some v => Some (v, rest) | None => None end
                | None => None
                end
            end
      end
  end
with parse_elems (fuel depth : nat) (s : string) (acc : list Value) {struct fuel}
  : option (Value * string) :=
  match fuel with
  | O => None
  | S f =>
      match scan_once f depth s with
      | Some (v, r) =>
          match skip_ws r with
          | String c r' =>
              if Nat.eqb (code c) 93 then Some (VList (acc ++ [v])%list, r')
              else if Nat.eqb (code c) 44 then parse_elems f depth (skip_ws r') (acc ++ [v])%list
              else None
          | EmptyString => None
          end
      | None => None
      end
  end
with parse_members (fuel depth : nat) (s : string) (acc : list (string * Value)) {struct fuel}
  : option (Value * string) :=
  match fuel with
  | O => None
  | S f =>
      match scanstring s with
      | Some (k, r) =>
          match skip_ws r with
          | String c r1 =>
              if Nat.eqb (code c) 58 then
                match scan_once f depth (skip_ws r1) with
                | Some (v, r2) =>
                    match skip_ws r2 with
                    | String c2 r3 =>
                        if Nat.eqb (code c2) 125 then
                          Some (VDict (dict_of_pairs (acc ++ [(k, v)])%list), r3)
                        else if Nat.eqb (code c2) 44 then
                          match skip_ws r3 with
                          | String c3 r4 =>
                              if Nat.eqb (code c3) 34 then parse_members f depth r4 (acc ++ [(k, v)])%list
                              else None
                          | EmptyString => None
                          end
                        else None
                    | EmptyString => None
                    end
                | None => None
                end
              else None
          | EmptyString => None
          end
      | None => None
      end
  end.

(** [json.loads] with [depth] levels of recursion left to its scanner: a
    value between optional whitespace, nothing after it.  [None] stands
    for the exception it raises: a [JSONDecodeError], the [ValueError] on
    an [int] of too many digits, or a [RecursionError]. *)
Definition json_loads (depth : nat) (s : string) : option Value :=
  match scan_once (S (String.length s)) depth (skip_ws s) with
  | Some (v, rest) => match skip_ws rest with EmptyString => Some v | _ => None end
  | None => None
  end.

(** Every [\\u] of the text is followed by [00], so that none escapes a
    code point of 256 or more (those the model's strings cannot hold). *)
Fixpoint latin1_escapes (s : string) : bool :=
  match s with
  | EmptyString => true
  | String c r =>
      (if Nat.eqb (code c) 92 then
         match r with
         | String u t => negb (Nat.eqb (code u) 117) || String.prefix "00" t
         | EmptyString => true
         end
       else true) && latin1_escapes r
  end.

(** [json.loads] reads the text [json.dumps] writes for the float [f]
    back as [f] itself: a named constant, or one number token that makes
    up the whole text and denotes [f].  (Python guarantees this of
    [repr]; here it is checked float by float.) *)
Definition float_reads_back (f : PrimFloat.float) : bool :=
  match FloatOps.Prim2SF f with
  | S754_nan | S754_infinity _ => true
  | _ =>
      match scan_number (float_json f) with
      | Some (t, EmptyString) =>
          match number_value t with Some (VFloat g) => PrimFloat.Leibniz.eqb g f | _ => false end
      | _ => false
      end
  end.

Fixpoint floats_read_back (v : Value) : bool :=
  match v with
  | VFloat f => float_reads_back f
  | VList l => forallb floats_read_back l
  | VDict d => forallb (fun kv => floats_read_back (snd kv)) d
  | _ => true
  end.

(** What [json.loads(_stable_json_dumps(v))] gives back: dict members in
    key order, non-JSON objects as their [str()] text. *)
Fixpoint roundtrip (v : Value) : Value :=
  match v with
  | VList l => VList (map roundtrip l)
  | VDict d => VDict (sort_items (map (fun kv => (fst kv, roundtrip (snd kv))) d))
  | VOther r _ => VStr r
  | _ => v
  end.

Fixpoint nodupb (l : list string) : bool :=
  match l with
  | [] => true
  | k :: r => negb (existsb (String.eqb k) r) && nodupb r
  end.

(** Every dict of the value has pairwise distinct keys, as Python dicts do. *)
Fixpoint keys_unique (v : Value) : bool :=
  match v with
  | VList l => forallb keys_unique l
  | VDict d => nodupb (map fst d) && forallb (fun kv => keys_unique (snd kv)) d
  | _ => true
  end.

(* ------------------------------------------------------------------ *)
(** ** The world [query_nim_cached] runs in *)

(** A [Path] as its list of components: [Path(cache_dir) / step / key]. *)
Definition path := list string.

Definition path_eqb (p q : path) : bool :=
  if list_eq_dec string_dec p q then true else false.

Definition parent (p : path) : path := removelast p.

(** The contents of the files, as the text [read_text] returns: the
    UTF-8 decoding of their bytes, here of code points below 256.  A file
    that does not decode makes [read_text] raise; the model counts it
    among the files that cannot be read ([w_read_err]). *)
Definition FS := path -> option string.

Definition fs_upd (fs : FS) (p : path) (c : option string) : FS :=
  fun q => if path_eqb q p then c else fs q.

(** What the run does that a caller or a test can observe. *)
Inductive Event : Type :=
| EFetch (payload : Value)   (** [fetch_fn(payload)] is called *)
| ERead (p : path)           (** [_read_json(p)] opens [p] *)
| EWrite (p : path)          (** [_write_json(p, _)] completed *)
| EHook (dir : path)         (** [save_extra(response, dir)] is called *)
| EWarn.                     (** the warning of the write phase is printed *)

Record World : Type := mkWorld {
  w_fs : FS;
  w_clock : nat -> PrimFloat.float; (** [time.time()] at its n-th reading *)
  w_tick : nat;                (** readings of the clock so far *)
  w_stat_err : path -> bool;   (** [stat()] of this path fails otherwise than with
                                   "not found" (e.g. [PermissionError]) *)
  w_read_err : path -> bool;   (** opening or decoding this file raises *)
  w_write_err : path -> bool;  (** creating this directory or file raises [OSError] *)
  w_dumps_depth : nat;         (** recursion levels left to [json.dumps]'s encoder
                                   when [_stable_json_dumps] calls it *)
  w_loads_depth : nat;         (** recursion levels left to [json.loads]'s scanner
                                   when [_read_json] calls it *)
  w_log : list Event }.

Definition set_fs (w : World) (fs : FS) : World :=
  mkWorld fs (w_clock w) (w_tick w) (w_stat_err w) (w_read_err w) (w_write_err w)
    (w_dumps_depth w) (w_loads_depth w) (w_log w).
Definition set_tick (w : World) (t : nat) : World :=
  mkWorld (w_fs w) (w_clock w) t (w_stat_err w) (w_read_err w) (w_write_err w)
    (w_dumps_depth w) (w_loads_depth w) (w_log w).
Definition set_log (w : World) (l : list Event) : World :=
  mkWorld (w_fs w) (w_clock w) (w_tick w) (w_stat_err w) (w_read_err w) (w_write_err w)
    (w_dumps_depth w) (w_loads_depth w) l.

Inductive Res (A : Type) : Type :=
| Ok (a : A)
| Raise (e : Exn).
Arguments Ok {A} a.
Arguments Raise {A} e.

(** Python statements: state passing, and exceptions that keep the
    effects made before they were raised. *)
Definition M (A : Type) : Type := World -> Res A * World.

Definition ret {A} (a : A) : M A := fun w => (Ok a, w).
Definition raise {A} (e : Exn) : M A := fun w => (Raise e, w).
Definition bind {A B} (m : M A) (k : A -> M B) : M B :=
  fun w => match m w with
           | (Ok a, w') => k a w'
           | (Raise e, w') => (Raise e, w')
           end.
(** [try: m except Exception: h]. *)
Definition try_except {A} (m : M A) (h : Exn -> M A) : M A :=
  fun w => match m w with
           | (Raise e, w') => h e w'
           | r => r
           end.

Notation "x <- m ;; k" := (bind m (fun x => k))
  (at level 61, m at next level, right associativity).
Notation "m ;;; k" := (bind m (fun _ => k))
  (at level 61, right associativity).

Definition emit (e : Event) : M unit :=
  fun w => (Ok tt, set_log w (w_log w ++ [e])%list).

(** [Path.exists()]: [False] when [stat()] finds nothing; any other
    failure of [stat()] is raised. *)
Definition path_exists (p : path) : M bool :=
  fun w => if w_stat_err w p then (Raise OSError, w)
           else (Ok (match w_fs w p with Some _ => true | None => false end), w).

(** [Path.read_text()]; a missing file raises [FileNotFoundError]. *)
Definition read_text (p : path) : M string :=
  emit (ERead p) ;;;
  fun w => if w_read_err w p then (Raise OSError, w)
           else match w_fs w p with
                | Some s => (Ok s, w)
                | None => (Raise OSError, w)
                end.

(** [_read_json]; [JSONDecodeError] stands for whatever [json.loads]
    raises. *)
Definition _read_json (p : path) : M Value :=
  s <- read_text p ;;
  fun w => match json_loads (w_loads_depth w) s with
           | Some v => (Ok v, w)
           | None => (Raise JSONDecodeError, w)
           end.

(** [Path.mkdir(parents=True, exist_ok=True)]. *)
Definition mkdir (d : path) : M unit :=
  fun w => if w_write_err w d then (Raise OSError, w) else (Ok tt, w).

(** [_atomic_write] as the rest of the module sees it: the directory,
    then the new content at [p] in one step (the protocol that achieves
    this is [atomic_write_ops] below, and [atomic_write_ops_run] shows
    what it leaves at [p]).  The temporary file that a failure after its
    creation leaves next to [p] is not kept in this view. *)
Definition _atomic_write (p : path) (data : string) : M unit :=
  mkdir (parent p) ;;;
  fun w => if w_write_err w p then (Raise OSError, w)
           else (Ok tt, set_fs w (fs_upd (w_fs w) p (Some data))).

(** [_write_json]: the text is made first, so when [json.dumps] raises
    nothing is written. *)
Definition _write_json (p : path) (obj : Value) : M unit :=
  fun w => match dumps_exn (w_dumps_depth w) obj with
           | Some e => (Raise e, w)
           | None => (_atomic_write p (_stable_json_dumps obj) ;;; emit (EWrite p)) w
           end.

(** [time.time()]. *)
Definition time_time : M PrimFloat.float :=
  fun w => (Ok (w_clock w (w_tick w)), set_tick w (S (w_tick w))).

(** The collaborators: [fetch_fn] returns [(rc, response)] or raises;
    [save_extra] may change any file, and then return or raise: it gives
    the files after it ran and whether it raised. *)
Definition FetchFn : Type := Value -> option (Z * Value).
Definition SaveExtra : Type := Value -> path -> FS -> FS * bool.

Definition call_fetch (fetch_fn : FetchFn) (payload : Value) : M (Z * Value) :=
  emit (EFetch payload) ;;;
  match fetch_fn payload with Some r => ret r | None => raise FetchError end.

Definition call_save_extra (h : SaveExtra) (response : Value) (dir : path) : M unit :=
  emit (EHook dir) ;;;
  fun w => let '(fs', raised) := h response dir (w_fs w) in
           (if raised then Raise HookError else Ok tt, set_fs w fs').

(** [meta.get("created_at", 0)]: only a dict has [.get]. *)
Definition meta_get_created_at (meta : Value) : M Value :=
  match meta with
  | VDict d => ret (match dict_get d "created_at" with Some v => v | None => VInt 0 end)
  | _ => raise AttributeError
  end.

(** [float(text)]: [PyFloat_FromString]. *)

(** [Py_ISSPACE]: the ASCII whitespace [' \t\n\v\f\r']. *)
Definition py_isspace (c : ascii) : bool :=
  let n := code c in Nat.eqb n 32 || (Nat.leb 9 n && Nat.leb n 13).

(** [_PyUnicode_TransformDecimalAndSpaceToASCII] on code points below
    256: ASCII below 127 is kept, the whitespace [\x85] and [\xa0]
    becomes a space, and the text ends with a ['?'] at any other
    character (none of them is a decimal digit). *)
Fixpoint to_ascii_text (s : string) : string :=
  match s with
  | EmptyString => EmptyString
  | String c r =>
      let n := code c in
      if Nat.ltb n 127 then String c (to_ascii_text r)
      else if Nat.eqb n 133 || Nat.eqb n 160 then String " " (to_ascii_text r)
      else str1 "?"
  end.

(** [_Py_string_to_number_with_underscores]: an underscore only between
    two digits, then all underscores dropped; [prev] is the character
    before [s] (initially [NUL]). *)
Fixpoint drop_underscores (prev : ascii) (s : string) : option string :=
  match s with
  | EmptyString => if Nat.eqb (code prev) 95 then None else Some EmptyString
  | String c r =>
      if Nat.eqb (code c) 95 then
        if is_digit prev then drop_underscores c r else None
      else if Nat.eqb (code prev) 95 && negb (is_digit c) then None
      else match drop_underscores c r with Some t => Some (String c t) | None => None end
  end.

Fixpoint lstrip (s : string) : string :=
  match s with
  | String c r => if py_isspace c then lstrip r else s
  | EmptyString => EmptyString
  end.

Definition rev_string (s : string) : string :=
  string_of_list_ascii (rev (list_ascii_of_string s)).

(** The leading and trailing [Py_ISSPACE] of [float_from_string_inner]. *)
Definition py_strip (s : string) : string := rev_string (lstrip (rev_string (lstrip s))).

(** [_Py_dg_strtod]: a sign, digits with at most one ['.'] among or
    around them (at least one digit), an exponent when a digit follows
    the ['e'] or ['E'] and its sign; the value correctly rounded and the
    unread rest; [None] when there is no number at all. *)
Definition dg_strtod (s : string) : option (PrimFloat.float * string) :=
  let '(neg, s1) := take_sign s in
  let '(ip, s2) := digits_span s1 in
  let '(fp, s3) := match s2 with
                   | String c r => if Nat.eqb (code c) 46 then digits_span r else (EmptyString, s2)
                   | EmptyString => (EmptyString, s2)
                   end in
  match (ip ++ fp)%string with
  | EmptyString => None
  | _ =>
      let '(e, s4) := match s3 with
                      | String c r =>
                          if Nat.eqb (code c) 101 || Nat.eqb (code c) 69 then
                            let '(eneg, r1) := take_sign r in
                            match digits_span r1 with
                            | (EmptyString, _) => (0%Z, s3)
                            | (ds, rest) => (signed eneg (digits_value ds), rest)
                            end
                          else (0%Z, s3)
                      | EmptyString => (0%Z, s3)
                      end in
      Some (FloatOps.SF2Prim (decimal_to_sf neg (digits_value (ip ++ fp))
                                (e - Z.of_nat (String.length fp))), s4)
  end.

(** [Py_TOLOWER(c) == lower] for a lower-case letter [lower]. *)
Definition ci_char (c lower : ascii) : bool :=
  Nat.eqb (code c) (code lower) || Nat.eqb (code c + 32) (code lower).

Fixpoint ci_prefix (p s : string) : option string :=
  match p, s with
  | EmptyString, _ => Some s
  | String a p', String c s' => if ci_char c a then ci_prefix p' s' else None
  | _, _ => None
  end.

(** [_Py_parse_inf_or_nan], the whole text to be read. *)
Definition parse_inf_or_nan (s : string) : option PrimFloat.float :=
  let '(neg, s1) := take_sign s in
  let inf := if neg then PrimFloat.neg_infinity else PrimFloat.infinity in
  match ci_prefix "inf" s1 with
  | Some EmptyString => Some inf
  | Some r => match ci_prefix "inity" r with Some EmptyString => Some inf | _ => None end
  | None => match ci_prefix "nan" s1 with Some EmptyString => Some PrimFloat.nan | _ => None end
  end.

(** [float(s)] for a [str]; [None] is its [ValueError]. *)
Definition float_of_str (s : string) : option PrimFloat.float :=
  match drop_underscores (chr 0) (to_ascii_text s) with
  | None => None
  | Some t =>
      match py_strip t with
      | EmptyString => None
      | u =>
          match dg_strtod u with
          | Some (x, EmptyString) => Some x
          | Some _ => None
          | None => parse_inf_or_nan u
          end
      end
  end.

(** [float(n)] for an [int]: rounded to nearest, ties to even. *)
Definition Z_to_float (z : Z) : PrimFloat.float :=
  FloatOps.SF2Prim (binary_normalize FloatOps.prec FloatOps.emax z 0 false).

(** [float(x)] of what [json.loads] can return; an [int] that rounds
    beyond the largest float raises [OverflowError]. *)
Definition py_float_res (x : Value) : Res PrimFloat.float :=
  match x with
  | VFloat f => Ok f
  | VInt z =>
      match binary_normalize FloatOps.prec FloatOps.emax z 0 false with
      | S754_infinity _ => Raise OverflowError
      | _ => Ok (Z_to_float z)
      end
  | VBool b => Ok (if b then Z_to_float 1 else Z_to_float 0)
  | VStr s => match float_of_str s with Some f => Ok f | None => Raise ValueError end
  | VNull | VList _ | VDict _ | VOther _ _ => Raise TypeError
  end.

Definition py_float (x : Value) : M PrimFloat.float := fun w => (py_float_res x, w).

(** [age > ttl_seconds] for a float [age] and an [int]: Python compares
    the exact values; a nan is greater than nothing. *)
Definition float_gt_int (x : PrimFloat.float) (n : Z) : bool :=
  match FloatOps.Prim2SF x with
  | S754_nan => false
  | S754_infinity s => negb s
  | S754_zero _ => (n <? 0)%Z
  | S754_finite s m e =>
      let v := if s then Zneg m else Zpos m in
      if (0 <=? e)%Z then (n <? v * 2 ^ e)%Z else (n * 2 ^ (- e) <? v)%Z
  end.

(** [resp["_from_cache"] = True] when [resp] is a dict. *)
Definition mark_from_cache (resp : Value) : Value :=
  match resp with
  | VDict d => VDict (dict_set d "_from_cache" (VBool true))
  | v => v
  end.

(* ------------------------------------------------------------------ *)
(** ** [query_nim_cached] *)

Definition result_file (outdir : path) : path := (outdir ++ ["result.json"])%list.
Definition meta_file (outdir : path) : path := (outdir ++ ["meta.json"])%list.
Definition payload_file (outdir : path) : path := (outdir ++ ["payload.json"])%list.

(** The [try] block of step 1: [Some] is the [return] of a hit, [None]
    falls through to step 2 (a stale entry, or any exception caught). *)
Definition cache_lookup (ttl_seconds : option Z) (outdir : path) : M (option (Z * Value)) :=
  try_except
    (use_ttl <- (match ttl_seconds with
                 | Some _ => path_exists (meta_file outdir)
                 | None => ret false
                 end) ;;
     match ttl_seconds, use_ttl with
     | Some ttl, true =>
         meta <- _read_json (meta_file outdir) ;;
         now <- time_time ;;
         ca <- meta_get_created_at meta ;;
         created <- py_float ca ;;
         let age := PrimFloat.sub now created in
         if float_gt_int age ttl then ret None
         else resp <- _read_json (result_file outdir) ;;
              ret (Some (200%Z, mark_from_cache resp))
     | _, _ =>
         resp <- _read_json (result_file outdir) ;;
         ret (Some (200%Z, mark_from_cache resp))
     end)
    (fun _ => ret None).

(** Step 1 with its guard [not refresh and result_path.exists()]. *)
Definition load_from_cache (refresh : bool) (ttl_seconds : option Z) (outdir : path)
  : M (option (Z * Value)) :=
  if refresh then ret None
  else ex <- path_exists (result_file outdir) ;;
       if ex then cache_lookup ttl_seconds outdir else ret None.

Definition meta_record (step key endpoint : string) (version : option string)
  (now : PrimFloat.float) : Value :=
  VDict [("step", VStr step); ("key", VStr key); ("endpoint", VStr endpoint);
         ("version", match version with Some v => VStr v | None => VNull end);
         ("created_at", VFloat now)].

(** The [try] block of step 3. *)
Definition persist (outdir : path) (meta payload response : Value)
  (save_extra : option SaveExtra) : M unit :=
  mkdir outdir ;;;
  _write_json (meta_file outdir) meta ;;;
  _write_json (payload_file outdir) payload ;;;
  _write_json (result_file outdir) response ;;;
  match save_extra with
  | Some h => call_save_extra h response outdir
  | None => ret tt
  end.

(** Steps 2 and 3: fetch, persist with every exception turned into a
    warning, return the fetched pair. *)
Definition fetch_and_persist (step endpoint key : string) (outdir : path) (payload : Value)
  (fetch_fn : FetchFn) (version : option string) (save_extra : option SaveExtra)
  : M (Z * Value) :=
  rr <- call_fetch fetch_fn payload ;;
  now <- time_time ;;
  let meta := meta_record step key endpoint version now in
  try_except (persist outdir meta payload (snd rr) save_extra) (fun _ => emit EWarn) ;;;
  ret (fst rr, snd rr).

(** [query_nim_cached].  Its first line, [_hash_key], encodes the
    payload, one level below the dict it builds: a payload that
    [json.dumps] refuses there makes the call raise before step 1.  The
    model describes the calls whose key is computed. *)
Definition query_nim_cached (step endpoint : string) (payload : Value) (fetch_fn : FetchFn)
  (cache_dir : string) (version : option string) (ttl_seconds : option Z)
  (refresh : bool) (save_extra : option SaveExtra) : M (Z * Value) :=
  let key := _hash_key endpoint payload version in
  let outdir := [cache_dir; step; key] in
  hit <- load_from_cache refresh ttl_seconds outdir ;;
  match hit with
  | Some r => ret r
  | None => fetch_and_persist step endpoint key outdir payload fetch_fn version save_extra
  end.

(** The default [cache_dir=".nim_cache"]. *)
Definition default_cache_dir : string := ".nim_cache".

(* ------------------------------------------------------------------ *)
(** ** The write protocol of [_atomic_write], operation by operation *)

(** A disk as seen by a live process ([vis]) and as left by a crash
    ([dur]); [buf] is the not yet flushed buffer of an open file.  A
    rename is taken to reach the disk at once, file data only at
    [fsync]. *)
Record Disk : Type := mkDisk {
  buf : path -> string;
  vis : FS;
  dur : FS }.

Inductive FsOp : Type :=
| OpMkdir (d : path)
| OpCreate (p : path)               (** [NamedTemporaryFile(dir=..., delete=False)] *)
| OpWrite (p : path) (data : string) (** [tmp.write(data)] *)
| OpFlush (p : path)                (** [tmp.flush()] *)
| OpFsync (p : path)                (** [os.fsync(tmp.fileno())] *)
| OpClose (p : path)                (** leaving the [with] block *)
| OpReplace (src dst : path).       (** [os.replace(tmp_path, path)] *)

Definition buf_upd (b : path -> string) (p : path) (s : string) : path -> string :=
  fun q => if path_eqb q p then s else b q.

Definition flush_file (d : Disk) (p : path) : Disk :=
  let pending := buf d p in
  let cur := match vis d p with Some s => s | None => EmptyString end in
  match pending with
  | EmptyString => d
  | _ => mkDisk (buf_upd (buf d) p EmptyString) (fs_upd (vis d) p (Some (cur ++ pending))) (dur d)
  end.

Definition step_op (d : Disk) (op : FsOp) : Disk :=
  match op with
  | OpMkdir _ => d
  | OpCreate p => mkDisk (buf_upd (buf d) p EmptyString) (fs_upd (vis d) p (Some EmptyString)) (dur d)
  | OpWrite p data => mkDisk (buf_upd (buf d) p (buf d p ++ data)) (vis d) (dur d)
  | OpFlush p => flush_file d p
  | OpFsync p => mkDisk (buf d) (vis d) (fs_upd (dur d) p (vis d p))
  | OpClose p => flush_file d p
  | OpReplace src dst =>
      mkDisk (buf d)
        (fs_upd (fs_upd (vis d) dst (vis d src)) src None)
        (fs_upd (fs_upd (dur d) dst (dur d src)) src None)
  end.

Definition run_ops (d : Disk) (ops : list FsOp) : Disk := fold_left step_op ops d.

(** [_atomic_write(path, data)], the temporary file being [tmpname] in
    the directory of [path]. *)
Definition atomic_write_ops (tmpname : string) (p : path) (data : string) : list FsOp :=
  let tmp := (parent p ++ [tmpname])%list in
  [OpMkdir (parent p); OpCreate tmp; OpWrite tmp data; OpFlush tmp; OpFsync tmp;
   OpClose tmp; OpReplace tmp p].

(* ------------------------------------------------------------------ *)
(** ** Concrete calls, for the examples *)

Definition no_err : path -> bool := fun _ => false.

Definition files_of (l : list (path * string)) : FS :=
  fun p => match find (fun kv => path_eqb (fst kv) p) l with
           | Some kv => Some (snd kv)
           | None => None
           end.


(** A world whose clock reads [1000.0], [1001.0], ..., with [100]
    levels of recursion left to [json]. *)
Definition ex_world (files : list (path * string)) (rerr werr : path -> bool) : World :=
  mkWorld (files_of files) (fun n => Z_to_float (1000 + Z.of_nat n)) 0 no_err rerr werr
    100 100 [].

Definition w_empty : World := ex_world [] no_err no_err.

Definition ex_step : string := "embed".
Definition ex_endpoint : string := "v1/embed".
Definition ex_payload : Value := VDict [("text", VStr "hi")].
(** [float(s)] of a numeral [s]. *)
Definition ex_float (s : string) : PrimFloat.float :=
  match float_of_str s with Some f => f | None => PrimFloat.nan end.
Definition ex_response : Value :=
  VDict [("vector", VList [VFloat (ex_float "0.1"); VFloat (ex_float "0.2")])].
Definition ex_outdir : path := [default_cache_dir; ex_step; _hash_key ex_endpoint ex_payload None].

Definition embed_fetch : FetchFn := fun _ => Some (200%Z, ex_response).

Definition embed_call (w : World) : Res (Z * Value) * World :=
  query_nim_cached ex_step ex_endpoint ex_payload embed_fetch default_cache_dir None None false None w.

(** A cache entry whose [meta.json] is the dict [meta]. *)
Definition w_entry (meta : list (string * Value)) : World :=
  ex_world [(meta_file ex_outdir, _stable_json_dumps (VDict meta));
            (result_file ex_outdir, _stable_json_dumps ex_response)] no_err no_err.

(** Further concrete inputs. *)
Definition ex_mixed : Value := VDict [("b", VList [VInt 1; VNull]); ("a", VOther "obj" 0)].

(** [{"a": 1, "a": [true]}]: a repeated key, the later member wins. *)
Definition ex_dup_text : string :=
  ("{" ++ str1 dquote ++ "a" ++ str1 dquote ++ ": 1, " ++ str1 dquote ++ "a" ++ str1 dquote
   ++ ": [true]}")%string.

Definition ex_other_file : path := [default_cache_dir; "other"].

(** A cache entry under a directory that cannot be searched (no [x]
    permission): [stat()] and [open()] of its files raise
    [PermissionError]. *)
Definition w_unsearchable : World :=
  mkWorld (files_of [(result_file ex_outdir, _stable_json_dumps ex_response)])
    (fun n => Z_to_float (1000 + Z.of_nat n)) 0
    (fun p => path_eqb (parent p) ex_outdir) (fun p => path_eqb (parent p) ex_outdir) no_err
    100 100 [].

(* ================================================================== *)
(** * Unit checks against CPython *)

Example dumps_ex1 :
  _stable_json_dumps (VDict [("b", VInt 1); ("a", VList [VNull; VBool true; VInt (-12)%Z])])
  = ("{" ++ encode_str "a" ++ ":[null,true,-12]," ++ encode_str "b" ++ ":1}")%string.
Proof. reflexivity. Qed.

Example sha1_abc :
  sha1_hexdigest "abc" = "a9993e364706816aba3e25717850c26c9cd0d89d".
Proof. vm_compute. reflexivity. Qed.

Example sha1_empty :
  sha1_hexdigest EmptyString = "da39a3ee5e6b4b0d3255bfef95601890afd80709".
Proof. vm_compute. reflexivity. Qed.

Example sha1_two_blocks :
  sha1_hexdigest "abcdbcdecdefdefgefghfghighijhijkijkljklmklmnlmnomnopnopq"
  = "84983e441c3bd26ebaae4aa1f95129e5e54670f1".
Proof. vm_compute. reflexivity. Qed.

Example hash_key_embed :
  _hash_key "v1/embed"
    (VDict [("text", VStr "hi"); ("a", VList [VInt 1; VInt (-2); VNull; VBool true])]) None
  = "10f4616fcbbdefbfcf0f6215f403756a16cbdade".
Proof. vm_compute. reflexivity. Qed.

Example dumps_escapes :
  _stable_json_dumps (VStr (String "a" (String (chr 127) (String (chr 1) (String (chr 233)
    (String dquote (String bslash (str1 (chr 10)))))))))
  = String dquote ("a\u007f\u0001\u00e9" ++ String bslash (str1 dquote)
      ++ String bslash (str1 bslash) ++ String bslash (String "n" (str1 dquote))).
Proof. vm_compute. reflexivity. Qed.

(* ------------------------------------------------------------------ *)
(** ** Facts about the key order and [sort_items] *)

Ltac ncases :=
  repeat match goal with
  | |- context [(?x <? ?y)%N] => destruct (N.ltb_spec x y)
  | |- context [(?x =? ?y)%N] => destruct (N.eqb_spec x y)
  | H : context [(?x <? ?y)%N] |- _ => destruct (N.ltb_spec x y)
  | H : context [(?x =? ?y)%N] |- _ => destruct (N.eqb_spec x y)
  end.

Lemma N_of_ascii_inj a b : N_of_ascii a = N_of_ascii b -> a = b.
Proof.
  intro H. rewrite <- (ascii_N_embedding a), <- (ascii_N_embedding b), H. reflexivity.
Qed.

Lemma str_ltb_irrefl s : str_ltb s s = false.
Proof.
  induction s as [|c s IH]; simpl; [reflexivity|].
  rewrite N.ltb_irrefl, N.eqb_refl. exact IH.
Qed.

Lemma str_ltb_trans s1 s2 s3 :
  str_ltb s1 s2 = true -> str_ltb s2 s3 = true -> str_ltb s1 s3 = true.
Proof.
  revert s2 s3; induction s1 as [|a r1 IH]; intros [|b r2] [|c r3]; simpl;
    try discriminate; try reflexivity.
  intros H1 H2. ncases; try lia; try discriminate; try reflexivity; eauto.
Qed.

Lemma str_ltb_total s1 s2 :
  s1 <> s2 -> str_ltb s1 s2 = false -> str_ltb s2 s1 = true.
Proof.
  revert s2; induction s1 as [|a r1 IH]; intros [|b r2]; simpl;
    try discriminate; try reflexivity; try congruence.
  intros Hne H. ncases; try lia; try discriminate; try reflexivity.
  assert (a = b) by (apply N_of_ascii_inj; lia). subst b.
  apply IH; congruence.
Qed.

Section SortFacts.
Context {A : Type}.

Definition key_lt (x y : string * A) : Prop := str_ltb (fst x) (fst y) = true.

Lemma insert_item_perm (x : string * A) l : Permutation (insert_item x l) (x :: l).
Proof.
  induction l as [|y l IH]; simpl; [reflexivity|].
  destruct (str_ltb (fst x) (fst y)); [reflexivity|].
  eapply perm_trans; [apply perm_skip, IH | apply perm_swap].
Qed.

Lemma sort_items_perm (l : list (string * A)) : Permutation (sort_items l) l.
Proof.
  induction l as [|x l IH]; simpl; [reflexivity|].
  rewrite insert_item_perm. apply perm_skip, IH.
Qed.

Lemma insert_item_sorted (x : string * A) l :
  StronglySorted key_lt l -> ~ In (fst x) (map fst l) ->
  StronglySorted key_lt (insert_item x l).
Proof.
  induction l as [|y l IH]; simpl; intros Hs Hn.
  - repeat constructor.
  - inversion Hs as [|? ? Hs' Hall]; subst.
    destruct (str_ltb (fst x) (fst y)) eqn:E.
    + constructor; [exact Hs|]. constructor; [exact E|].
      eapply Forall_impl; [|exact Hall]. intros z Hz. eapply str_ltb_trans; eauto.
    + constructor; [apply IH; tauto|].
      apply Forall_forall. intros z Hz.
      apply (Permutation_in _ (insert_item_perm x l)) in Hz.
      destruct Hz as [<-|Hz].
      * apply str_ltb_total; [|exact E]. intro Heq. apply Hn. left. congruence.
      * rewrite Forall_forall in Hall. apply Hall, Hz.
Qed.

Lemma sort_items_sorted (l : list (string * A)) :
  NoDup (map fst l) -> StronglySorted key_lt (sort_items l).
Proof.
  induction l as [|x l IH]; simpl; intro Hnd; [constructor|].
  inversion Hnd as [|? ? Hn Hnd']; subst.
  apply insert_item_sorted; [apply IH, Hnd'|].
  intro Hin. apply Hn.
  apply (Permutation_in _ (Permutation_map fst (sort_items_perm l))), Hin.
Qed.

Lemma sorted_perm_eq (l1 l2 : list (string * A)) :
  StronglySorted key_lt l1 -> StronglySorted key_lt l2 -> Permutation l1 l2 -> l1 = l2.
Proof.
  revert l2; induction l1 as [|x l1 IH]; intros l2 H1 H2 P.
  - symmetry. apply Permutation_nil, P.
  - destruct l2 as [|y l2].
    + apply Permutation_sym, Permutation_nil in P. discriminate.
    + inversion H1 as [|? ? S1 F1]; inversion H2 as [|? ? S2 F2]; subst.
      assert (Hy : In y (x :: l1)) by (apply (Permutation_in _ (Permutation_sym P)); left; reflexivity).
      assert (Hx : In x (y :: l2)) by (apply (Permutation_in _ P); left; reflexivity).
      rewrite Forall_forall in F1, F2.
      destruct Hy as [<-|Hy].
      * f_equal. apply IH; auto. eapply Permutation_cons_inv, P.
      * exfalso. assert (Lxy : key_lt x y) by (apply F1, Hy).
        destruct Hx as [->|Hx].
        -- unfold key_lt in Lxy. rewrite str_ltb_irrefl in Lxy. discriminate.
        -- assert (Lyx : key_lt y x) by (apply F2, Hx).
           unfold key_lt in *. pose proof (str_ltb_trans _ _ _ Lxy Lyx) as Lxx.
           rewrite str_ltb_irrefl in Lxx. discriminate.
Qed.

Lemma sort_items_perm_eq (l l' : list (string * A)) :
  Permutation l l' -> NoDup (map fst l) -> sort_items l = sort_items l'.
Proof.
  intros P Hnd. apply sorted_perm_eq.
  - apply sort_items_sorted, Hnd.
  - apply sort_items_sorted. eapply Permutation_NoDup; [apply Permutation_map, P|exact Hnd].
  - rewrite !sort_items_perm. exact P.
Qed.
End SortFacts.

Example loads_ex1 :
  json_loads 100 (" {" ++ encode_str "b" ++ ": [1, -20 ,true], " ++ encode_str "a"
              ++ ":null," ++ encode_str "b" ++ ":3}  ")
  = Some (VDict [("b", VInt 3); ("a", VNull)]).
Proof. reflexivity. Qed.

Example loads_ex2 :
  json_loads 100 "[1,]" = None /\ json_loads 100 "01" = None /\ json_loads 100 "-" = None
  /\ json_loads 100 "1 2" = None /\ json_loads 100 "[ ]" = Some (VList [])
  /\ json_loads 100 "-0" = Some (VInt 0) /\ json_loads 100 "tru" = None.
Proof. repeat split; reflexivity. Qed.

(** Each array or object takes one level of recursion, even an empty one. *)
Example loads_depth :
  json_loads 0 "[]" = None /\ json_loads 1 "[]" = Some (VList [])
  /\ json_loads 1 "[{}]" = None /\ json_loads 2 "[{}]" = Some (VList [VDict []])
  /\ json_loads 0 "1.5e3" = Some (VFloat (Z_to_float 1500)).
Proof. repeat split; reflexivity. Qed.

Example loads_escape :
  json_loads 100 (String dquote (String bslash "u00E9" ++ String bslash (str1 dquote) ++ str1 dquote))
  = Some (VStr (String (chr 233) (str1 dquote))).
Proof. reflexivity. Qed.

(** The end-to-end scenario: a miss that writes three files, then a hit. *)
Example end_to_end :
  let '(r1, w1) := embed_call w_empty in
  let '(r2, w2) := embed_call w1 in
  r1 = Ok (200%Z, ex_response) /\ r2 = Ok (200%Z, mark_from_cache ex_response)
  /\ length (filter (fun e => match e with EFetch _ => true | _ => false end) (w_log w2)) = 1%nat.
Proof. vm_compute. repeat split. Qed.

(* ------------------------------------------------------------------ *)
(** ** Canonical encoding and key derivation *)

Lemma dumps_py_eq v1 v2 : py_eq v1 v2 -> _stable_json_dumps v1 = _stable_json_dumps v2.
Proof.
  revert v2. induction v1 as [| | | | | l IHl | d IHd |] using value_ind';
    intros v2 H; inversion H; subst; try reflexivity.
  - (* lists *)
    assert (E : map _stable_json_dumps l = map _stable_json_dumps l2).
    { clear H. generalize dependent l2.
      induction IHl as [|x l Hx _ IH]; intros l2 HF; inversion HF; subst; [reflexivity|].
      simpl. f_equal; auto. }
    simpl. rewrite E. reflexivity.
  - (* dicts *)
    match goal with
    | Hnd0 : NoDup (map fst d), HP0 : Permutation ?a ?b, HF0 : Forall2 _ d ?b |- _ =>
        rename Hnd0 into Hnd, HP0 into HP, HF0 into HF, a into e2, b into e2'
    end.
    set (enc := fun kv : string * Value => (fst kv, _stable_json_dumps (snd kv))).
    assert (E : map enc d = map enc e2').
    { clear HP Hnd H. revert e2' HF.
      induction IHd as [|x d Hx _ IH]; intros e2' HF; inversion HF as [|? ? ? ? [Hk Hv] HF']; subst;
        [reflexivity|].
      simpl. f_equal; [unfold enc; rewrite Hk, (Hx _ Hv); reflexivity | auto]. }
    assert (K : map fst d = map fst e2').
    { clear -HF. induction HF as [|x y d e [Hk _] _ IH]; simpl; congruence. }
    assert (S : sort_items (map enc e2) = sort_items (map enc e2')).
    { apply sort_items_perm_eq; [apply Permutation_map, HP|].
      replace (map fst (map enc e2)) with (map fst e2) by (rewrite map_map; reflexivity).
      eapply Permutation_NoDup; [apply Permutation_sym, Permutation_map, HP|].
      rewrite <- K. exact Hnd. }
    simpl. fold enc. rewrite E, S. reflexivity.
Qed.

Lemma be_bytes_length k x : length (SHA1.be_bytes k x) = k.
Proof. unfold SHA1.be_bytes. rewrite length_map, length_seq. reflexivity. Qed.

Lemma be_bytes_range k x : Forall (fun b => (0 <= b <= 255)%Z) (SHA1.be_bytes k x).
Proof.
  unfold SHA1.be_bytes. apply Forall_forall. intros b Hb.
  apply in_map_iff in Hb as [i [<- _]].
  change 255%Z with (Z.ones 8). rewrite Z.land_ones by lia.
  pose proof (Z.mod_pos_bound (Z.shiftr x (8 * Z.of_nat (k - 1 - i))) (2 ^ 8)) as B.
  change (Z.ones 8) with 255%Z. change (2 ^ 8)%Z with 256%Z in *. lia.
Qed.

Lemma hex_digit_hex n : (n < 16)%nat -> is_hex_char (hex_digit n) = true.
Proof.
  intro H. unfold hex_digit, is_hex_char, code, chr.
  destruct (Nat.ltb_spec n 10).
  - rewrite nat_ascii_embedding by lia.
    apply orb_true_iff; left; apply andb_true_iff; split; apply Nat.leb_le; lia.
  - rewrite nat_ascii_embedding by lia.
    apply orb_true_iff; right; apply andb_true_iff; split; apply Nat.leb_le; lia.
Qed.

Lemma hexdigest_shape bs :
  Forall (fun b => (0 <= b <= 255)%Z) bs ->
  String.length (hexdigest bs) = (2 * length bs)%nat /\ all_hex (hexdigest bs) = true.
Proof.
  induction bs as [|b bs IH]; intro HF; simpl; [split; reflexivity|].
  inversion HF as [|? ? Hb HF']; subst. destruct (IH HF') as [L A].
  split; [rewrite L; lia|].
  rewrite A, !hex_digit_hex; [reflexivity| |].
  - apply Nat2Z.inj_lt. rewrite Z2Nat.id by (apply Z.mod_pos_bound; lia).
    apply Z.mod_pos_bound; lia.
  - apply Nat2Z.inj_lt. rewrite Z2Nat.id by (apply Z.div_pos; lia).
    simpl. apply Z.div_lt_upper_bound; lia.
Qed.

Lemma sha1_hexdigest_shape s :
  String.length (sha1_hexdigest s) = 40%nat /\ all_hex (sha1_hexdigest s) = true.
Proof.
  unfold sha1_hexdigest, SHA1.digest.
  destruct (fold_left _ _ _) as [[[[h0 h1] h2] h3] h4].
  destruct (hexdigest_shape (SHA1.be_bytes 4 h0 ++ SHA1.be_bytes 4 h1 ++ SHA1.be_bytes 4 h2
                               ++ SHA1.be_bytes 4 h3 ++ SHA1.be_bytes 4 h4)%list) as [L A].
  { rewrite !Forall_app. repeat split; apply be_bytes_range. }
  rewrite L, A. rewrite !length_app, !be_bytes_length. split; reflexivity.
Qed.

(** C1: key derivation is deterministic and independent of the insertion
    order of dict keys: payloads equal as Python values give the same
    canonical bytes, for themselves and for the key material, and the same
    key, a 40-character lower-case hexadecimal string. *)
Theorem hash_key_order_independent (endpoint : string) (p1 p2 : Value)
  (version : option string) :
  py_eq p1 p2 ->
  _stable_json_dumps p1 = _stable_json_dumps p2
  /\ _stable_json_dumps (material endpoint p1 version)
     = _stable_json_dumps (material endpoint p2 version)
  /\ _hash_key endpoint p1 version = _hash_key endpoint p2 version
  /\ String.length (_hash_key endpoint p1 version) = 40%nat
  /\ all_hex (_hash_key endpoint p1 version) = true.
Proof.
  intro H.
  assert (M : _stable_json_dumps (material endpoint p1 version)
              = _stable_json_dumps (material endpoint p2 version)).
  { apply dumps_py_eq. unfold material.
    eapply py_eq_dict; [ |reflexivity| ].
    - repeat constructor; simpl; intuition discriminate.
    - repeat constructor; auto. }
  split; [apply dumps_py_eq, H|]. split; [exact M|].
  split; [unfold _hash_key; rewrite M; reflexivity|].
  apply sha1_hexdigest_shape.
Qed.

Lemma hash_key_order_independent_witness :
  py_eq (VDict [("text", VStr "hi"); ("n", VInt 3)]) (VDict [("n", VInt 3); ("text", VStr "hi")])
  /\ _hash_key "v1/embed" (VDict [("text", VStr "hi"); ("n", VInt 3)]) None
     = _hash_key "v1/embed" (VDict [("n", VInt 3); ("text", VStr "hi")]) None.
Proof.
  assert (H : py_eq (VDict [("text", VStr "hi"); ("n", VInt 3)])
                    (VDict [("n", VInt 3); ("text", VStr "hi")])).
  { apply py_eq_dict with (d2' := [("text", VStr "hi"); ("n", VInt 3)]).
    - repeat constructor; simpl; intuition discriminate.
    - apply perm_swap.
    - repeat constructor. }
  split; [exact H|].
  apply (hash_key_order_independent "v1/embed" _ _ None H).
Defined.

(* ------------------------------------------------------------------ *)
(** ** The write protocol *)

Lemma path_eqb_refl p : path_eqb p p = true.
Proof. unfold path_eqb. destruct (list_eq_dec string_dec p p); congruence. Qed.

Lemma path_eqb_neq p q : p <> q -> path_eqb p q = false.
Proof. unfold path_eqb. destruct (list_eq_dec string_dec p q); congruence. Qed.

Lemma path_eqb_true p q : path_eqb p q = true -> p = q.
Proof. unfold path_eqb. destruct (list_eq_dec string_dec p q); congruence. Qed.

Lemma parent_snoc (p : path) (x : string) : parent (p ++ [x])%list = p.
Proof. unfold parent. apply removelast_last. Qed.

(** C8: [_atomic_write] writes the whole content to a temporary file of
    the destination's directory, flushes and fsyncs it, and only then
    renames it onto the destination.  Stopped after any number of its
    operations (a crash, or an exception), the destination holds its old
    content (or nothing) or the complete new content, both for a live
    observer ([vis]) and on the disk a crash leaves ([dur]); run to the
    end, it holds the new content on both. *)
Theorem atomic_write_all_or_nothing (tmpname : string) (p : path) (data : string) (d0 : Disk) :
  (parent p ++ [tmpname])%list <> p ->
  let tmp := (parent p ++ [tmpname])%list in
  atomic_write_ops tmpname p data
    = [OpMkdir (parent p); OpCreate tmp; OpWrite tmp data; OpFlush tmp; OpFsync tmp;
       OpClose tmp; OpReplace tmp p]
  /\ parent tmp = parent p
  /\ (forall k, let d := run_ops d0 (firstn k (atomic_write_ops tmpname p data)) in
        (vis d p = vis d0 p \/ vis d p = Some data)
        /\ (dur d p = dur d0 p \/ dur d p = Some data))
  /\ vis (run_ops d0 (atomic_write_ops tmpname p data)) p = Some data
  /\ dur (run_ops d0 (atomic_write_ops tmpname p data)) p = Some data.
Proof.
  intros Hne tmp.
  assert (E1 : path_eqb p tmp = false)
    by (apply path_eqb_neq; intro Heq; apply Hne; unfold tmp in Heq; rewrite <- Heq; reflexivity).
  assert (E2 : path_eqb tmp tmp = true) by apply path_eqb_refl.
  assert (E3 : path_eqb p p = true) by apply path_eqb_refl.
  assert (E4 : path_eqb tmp p = false) by (apply path_eqb_neq; exact Hne).
  assert (Fin : vis (run_ops d0 (atomic_write_ops tmpname p data)) p = Some data
                /\ dur (run_ops d0 (atomic_write_ops tmpname p data)) p = Some data).
  { unfold atomic_write_ops, run_ops. fold tmp. simpl.
    unfold flush_file, fs_upd, buf_upd; simpl.
    destruct data as [|c r]; repeat progress (cbn; rewrite ?E1, ?E2, ?E3, ?E4);
      split; reflexivity. }
  split; [reflexivity|]. split; [apply parent_snoc|].
  split; [|exact Fin].
  intro k. cbv zeta.
  destruct k as [|[|[|[|[|[|[|k]]]]]]];
    [ | | | | | | | rewrite firstn_all2 by (unfold atomic_write_ops; simpl; lia);
                    destruct Fin as [F1 F2]; split; right; assumption ];
    unfold atomic_write_ops, run_ops; fold tmp; simpl;
    unfold flush_file, fs_upd, buf_upd; simpl;
    destruct data as [|c r]; repeat progress (cbn; rewrite ?E1, ?E2, ?E3, ?E4);
    auto.
Qed.

Definition disk_empty : Disk := mkDisk (fun _ => EmptyString) (fun _ => None) (fun _ => None).

Lemma atomic_write_all_or_nothing_witness :
  ([".nim_cache"; "embed"; "tmpq3x9"])%list <> [".nim_cache"; "embed"; "result.json"]
  /\ dur (run_ops disk_empty
            (firstn 5 (atomic_write_ops "tmpq3x9" [".nim_cache"; "embed"; "result.json"] "{}")))
         [".nim_cache"; "embed"; "result.json"] = None.
Proof.
  assert (H : (parent [".nim_cache"; "embed"; "result.json"] ++ ["tmpq3x9"])%list
              <> [".nim_cache"; "embed"; "result.json"]) by (simpl; discriminate).
  destruct (atomic_write_all_or_nothing "tmpq3x9" [".nim_cache"; "embed"; "result.json"] "{}"
              disk_empty H) as [_ [_ [Hk _]]].
  split; [exact H|].
  destruct (Hk 5%nat) as [_ [D | D]]; [exact D|].
  vm_compute in D. discriminate D.
Defined.

(** Without the [fsync], a crash right after the rename leaves an empty
    file at the destination: the step the protocol relies on. *)
Example rename_before_fsync_truncates :
  let p := [".nim_cache"; "embed"; "result.json"] in
  let tmp := [".nim_cache"; "embed"; "tmpq3x9"] in
  dur (run_ops disk_empty [OpCreate tmp; OpWrite tmp "{}"; OpFlush tmp; OpReplace tmp p]) p
  = None
  /\ dur (run_ops (mkDisk (fun _ => EmptyString) (fun _ => None) (fun q => Some "old"))
            [OpCreate tmp; OpFsync tmp; OpWrite tmp "{}"; OpFlush tmp; OpReplace tmp p]) p
     = Some EmptyString.
Proof. split; vm_compute; reflexivity. Qed.

(** The full protocol changes what a live process sees exactly as the
    one-step [_atomic_write] of the orchestrator does, apart from the
    temporary name, which it removes again. *)
Lemma atomic_write_ops_run (tmpname : string) (p : path) (data : string) (d0 : Disk) (q : path) :
  (parent p ++ [tmpname])%list <> p -> q <> (parent p ++ [tmpname])%list ->
  vis (run_ops d0 (atomic_write_ops tmpname p data)) q = fs_upd (vis d0) p (Some data) q.
Proof.
  intros Hne Hq.
  set (tmp := (parent p ++ [tmpname])%list) in *.
  assert (E2 : path_eqb tmp tmp = true) by apply path_eqb_refl.
  assert (E4 : path_eqb tmp p = false) by (apply path_eqb_neq; exact Hne).
  assert (E5 : path_eqb q tmp = false) by (apply path_eqb_neq; exact Hq).
  unfold atomic_write_ops, run_ops. fold tmp. simpl.
  unfold flush_file, fs_upd, buf_upd.
  destruct data as [|c r]; repeat progress (cbn; rewrite ?E2, ?E4, ?E5);
    destruct (path_eqb q p); reflexivity.
Qed.

(* ------------------------------------------------------------------ *)
(** ** [json.loads] reads back what [_stable_json_dumps] writes *)

Lemma str_app_assoc (a b c : string) : ((a ++ b) ++ c)%string = (a ++ (b ++ c))%string.
Proof. induction a as [|x a IH]; simpl; [reflexivity|]. rewrite IH. reflexivity. Qed.

Lemma str_app_nil_r (a : string) : (a ++ EmptyString)%string = a.
Proof. induction a as [|x a IH]; simpl; [reflexivity|]. rewrite IH. reflexivity. Qed.

Lemma scanstring_escape_char c rest :
  scanstring (escape_char c ++ rest)
  = match scanstring rest with Some (x, r) => Some (String c x, r) | None => None end.
Proof. destruct c as [[] [] [] [] [] [] [] []]; reflexivity. Qed.

Lemma scanstring_escape_body s rest :
  scanstring (escape_body s ++ String dquote rest) = Some (s, rest).
Proof.
  induction s as [|c s IH]; [reflexivity|].
  simpl. rewrite str_app_assoc, scanstring_escape_char, IH. reflexivity.
Qed.

Lemma encode_str_app s rest :
  (encode_str s ++ rest)%string = String dquote (escape_body s ++ String dquote rest).
Proof. unfold encode_str. simpl. rewrite str_app_assoc. reflexivity. Qed.

Lemma code_digit m : (m < 10)%nat -> code (chr (48 + m)) = (48 + m)%nat.
Proof. intro H. unfold code, chr. apply nat_ascii_embedding. lia. Qed.

Lemma is_digit_chr m : (m < 10)%nat -> is_digit (chr (48 + m)) = true.
Proof.
  intro H. unfold is_digit. rewrite code_digit by exact H.
  apply andb_true_iff; split; apply Nat.leb_le; lia.
Qed.

Lemma digit_val_chr m : (m < 10)%nat -> digit_val (chr (48 + m)) = N.of_nat m.
Proof. intro H. unfold digit_val. rewrite code_digit by exact H. f_equal. lia. Qed.

Lemma mod10_lt n : (N.to_nat (n mod 10) < 10)%nat.
Proof.
  pose proof (N.mod_lt n 10 ltac:(discriminate)) as H. lia.
Qed.

Lemma scan_digits_cons c s k :
  scan_digits (String c s) k
  = if is_digit c then scan_digits s (k * 10 + digit_val c)%N else (k, String c s).
Proof. reflexivity. Qed.

Lemma scan_digits_digits_acc f n acc rest :
  (n < 10 ^ N.of_nat f)%N ->
  exists j, forall k, scan_digits (digits_acc f n acc ++ rest) k
                      = scan_digits (acc ++ rest) (k * 10 ^ j + n)%N.
Proof.
  revert n acc. induction f as [|f IH]; intros n acc Hn.
  - simpl in Hn. assert (n = 0%N) by lia. subst n.
    exists 0%N. intro k. simpl. rewrite N.mul_1_r, N.add_0_r. reflexivity.
  - cbn [digits_acc].
    pose proof (mod10_lt n) as Hm.
    pose proof (N.div_mod n 10 ltac:(discriminate)) as Hdm.
    destruct (N.ltb_spec n 10) as [Hlt|Hge].
    + exists 1%N. intro k. cbn [String.append].
      rewrite scan_digits_cons, is_digit_chr, digit_val_chr by exact Hm.
      rewrite N2Nat.id, N.mod_small by exact Hlt. reflexivity.
    + destruct (IH (n / 10)%N (String (chr (48 + N.to_nat (n mod 10))) acc)) as [j Hj].
      { apply N.div_lt_upper_bound; [discriminate|].
        rewrite Nat2N.inj_succ, N.pow_succ_r' in Hn. exact Hn. }
      exists (N.succ j). intro k. rewrite Hj. cbn [String.append].
      rewrite scan_digits_cons, is_digit_chr, digit_val_chr by exact Hm. rewrite N2Nat.id.
      f_equal. rewrite N.pow_succ_r'. nia.
Qed.

Lemma digits_acc_head f n acc :
  (0 < n)%N -> (n < 10 ^ N.of_nat f)%N ->
  exists c s, digits_acc f n acc = String c s /\ is_digit c = true /\ code c <> 48%nat
              /\ digit_val c <> 0%N.
Proof.
  revert n acc. induction f as [|f IH]; intros n acc Hpos Hn.
  - simpl in Hn. lia.
  - cbn [digits_acc].
    pose proof (mod10_lt n) as Hm.
    destruct (N.ltb_spec n 10) as [Hlt|Hge].
    + eexists _, _. split; [reflexivity|].
      rewrite is_digit_chr, code_digit, digit_val_chr by exact Hm.
      rewrite N.mod_small by exact Hlt.
      repeat split; try reflexivity; lia.
    + apply IH.
      * apply N.div_str_pos. lia.
      * apply N.div_lt_upper_bound; [discriminate|].
        rewrite Nat2N.inj_succ, N.pow_succ_r' in Hn. exact Hn.
Qed.

Lemma pos_lt_pow10_size p : (Npos p < 10 ^ N.of_nat (S (Pos.size_nat p)))%N.
Proof.
  induction p as [p IH|p IH|]; cbn [Pos.size_nat].
  - rewrite Nat2N.inj_succ, N.pow_succ_r'.
    change (Npos p~1) with (2 * Npos p + 1)%N. lia.
  - rewrite Nat2N.inj_succ, N.pow_succ_r'.
    change (Npos p~0) with (2 * Npos p)%N. lia.
  - simpl. lia.
Qed.

(** The input after a number does not continue it: no digit, no ['.'],
    no exponent mark. *)
Definition ends_number (rest : string) : bool :=
  match rest with
  | String c _ => negb (is_digit c) && negb (Nat.eqb (code c) 46)
                  && negb (Nat.eqb (code c) 101) && negb (Nat.eqb (code c) 69)
  | EmptyString => true
  end.

Definition no_digit_head (rest : string) : bool :=
  match rest with String c _ => negb (is_digit c) | EmptyString => true end.

Lemma ends_number_digit rest : ends_number rest = true -> no_digit_head rest = true.
Proof.
  destruct rest as [|c r]; [reflexivity|]. unfold ends_number, no_digit_head.
  destruct (is_digit c); [discriminate|reflexivity].
Qed.

Lemma scan_digits_stop rest n : ends_number rest = true -> scan_digits rest n = (n, rest).
Proof.
  intro H. apply ends_number_digit in H.
  destruct rest as [|c r]; simpl in *; [reflexivity|].
  destruct (is_digit c); [discriminate|reflexivity].
Qed.

Lemma n_repr_head_code n : exists c s, n_repr n = String c s /\ is_digit c = true.
Proof.
  destruct n as [|p]; [eexists _, _; split; reflexivity|].
  unfold n_repr. cbn [N.size_nat].
  destruct (digits_acc_head (S (Pos.size_nat p)) (Npos p) EmptyString ltac:(lia)
              (pos_lt_pow10_size p)) as [c [s [Hd [Hdig _]]]].
  exists c, s. split; assumption.
Qed.

Fixpoint all_digits (s : string) : bool :=
  match s with String c r => is_digit c && all_digits r | EmptyString => true end.

Lemma all_digits_digits_acc f n acc :
  all_digits acc = true -> all_digits (digits_acc f n acc) = true.
Proof.
  revert n acc. induction f as [|f IH]; intros n acc H; [exact H|].
  cbn [digits_acc]. pose proof (mod10_lt n) as Hm.
  destruct (n <? 10)%N; [|apply IH]; cbn [all_digits]; rewrite is_digit_chr by exact Hm; exact H.
Qed.

Lemma all_digits_n_repr n : all_digits (n_repr n) = true.
Proof. apply all_digits_digits_acc. reflexivity. Qed.

Lemma digits_span_all s rest :
  all_digits s = true -> no_digit_head rest = true -> digits_span (s ++ rest) = (s, rest).
Proof.
  induction s as [|c s IH]; intros H Hr.
  - destruct rest as [|c r]; [reflexivity|]. simpl in Hr |- *.
    destruct (is_digit c); [discriminate|reflexivity].
  - cbn [all_digits] in H. apply andb_true_iff in H as [H1 H2].
    cbn [String.append digits_span]. rewrite H1, IH by assumption. reflexivity.
Qed.

Lemma digits_span_app s rest d s' :
  digits_span s = (d, s') -> (s' <> EmptyString \/ no_digit_head rest = true) ->
  digits_span (s ++ rest) = (d, s' ++ rest)%string.
Proof.
  revert d s'. induction s as [|c s IH]; intros d s' E H.
  - cbn in E. injection E as <- <-. destruct H as [H|H]; [congruence|].
    destruct rest as [|c r]; [reflexivity|]. simpl in H |- *.
    destruct (is_digit c); [discriminate|reflexivity].
  - cbn [String.append digits_span] in E |- *. destruct (is_digit c).
    + destruct (digits_span s) as [ds r0] eqn:Es. injection E as <- <-.
      rewrite (IH ds r0 eq_refl H). reflexivity.
    + injection E as <- <-. reflexivity.
Qed.

Lemma digits_value_n_repr n : digits_value (n_repr n) = n.
Proof.
  destruct n as [|p]; [reflexivity|].
  unfold digits_value, n_repr. cbn [N.size_nat].
  destruct (scan_digits_digits_acc (S (Pos.size_nat p)) (Npos p) EmptyString EmptyString
              (pos_lt_pow10_size p)) as [j Hj].
  specialize (Hj 0%N). rewrite str_app_nil_r in Hj. rewrite Hj. cbn [fst scan_digits String.append]. lia.
Qed.

Lemma frac_part_stop rest : ends_number rest = true -> frac_part rest = (None, rest).
Proof.
  destruct rest as [|c [|d r]]; intro H; try reflexivity.
  unfold ends_number in H. unfold frac_part.
  destruct (Nat.eqb (code c) 46); [|reflexivity].
  rewrite andb_false_r in H. discriminate.
Qed.

Lemma exp_part_stop rest : ends_number rest = true -> exp_part rest = (None, rest).
Proof.
  destruct rest as [|c r]; intro H; [reflexivity|].
  unfold ends_number in H. unfold exp_part.
  destruct (Nat.eqb (code c) 101), (Nat.eqb (code c) 69);
    rewrite ?andb_false_r in H; try discriminate; reflexivity.
Qed.

Lemma take_minus_int_repr z rest :
  take_minus (int_repr z ++ rest) = ((z <? 0)%Z, n_repr (Z.abs_N z) ++ rest)%string.
Proof.
  destruct z as [|p|p]; [reflexivity| |reflexivity].
  unfold int_repr. destruct (n_repr_head_code (Npos p)) as [c [s [Hd Hdig]]].
  cbn [Z.abs_N]. rewrite Hd. cbn [String.append take_minus].
  assert (Nat.eqb (code c) 45 = false).
  { unfold is_digit in Hdig. apply andb_true_iff in Hdig as [H1 H2].
    apply Nat.leb_le in H1. apply Nat.eqb_neq. lia. }
  rewrite H. reflexivity.
Qed.

Lemma int_part_n_repr n rest :
  no_digit_head rest = true -> int_part (n_repr n ++ rest) = Some (n_repr n, rest).
Proof.
  intro Hr. destruct n as [|p]; [reflexivity|].
  pose proof (all_digits_n_repr (Npos p)) as Ha.
  unfold n_repr in *. cbn [N.size_nat] in *.
  destruct (digits_acc_head (S (Pos.size_nat p)) (Npos p) EmptyString ltac:(lia)
              (pos_lt_pow10_size p)) as [c [s [Hd [Hdig [H48 _]]]]].
  rewrite Hd in Ha |- *. cbn [all_digits] in Ha. rewrite Hdig in Ha.
  cbn [String.append int_part]. apply Nat.eqb_neq in H48. rewrite H48, Hdig.
  rewrite digits_span_all by assumption. reflexivity.
Qed.

Lemma scan_number_int z rest :
  ends_number rest = true ->
  scan_number (int_repr z ++ rest)
  = Some (mkNumTok (z <? 0)%Z (n_repr (Z.abs_N z)) None None, rest).
Proof.
  intro Hr. unfold scan_number. rewrite take_minus_int_repr.
  rewrite int_part_n_repr by (apply ends_number_digit, Hr).
  rewrite frac_part_stop, exp_part_stop by exact Hr. reflexivity.
Qed.

Lemma number_value_int z :
  int_digits_ok z = true ->
  number_value (mkNumTok (z <? 0)%Z (n_repr (Z.abs_N z)) None None) = Some (VInt z).
Proof.
  unfold int_digits_ok, number_value. intro H. rewrite H, digits_value_n_repr.
  destruct z; reflexivity.
Qed.

Lemma str_length_app (a b : string) :
  String.length (a ++ b) = (String.length a + String.length b)%nat.
Proof. induction a as [|x a IH]; simpl; [reflexivity|]. rewrite IH. reflexivity. Qed.

Lemma prefix_app (p r : string) : String.prefix p (p ++ r) = true.
Proof.
  induction p as [|a p IH]; simpl; [destruct r; reflexivity|].
  destruct (ascii_dec a a); [exact IH|congruence].
Qed.

Lemma substring_all (s : string) : substring 0 (String.length s) s = s.
Proof. induction s as [|a s IH]; simpl; [reflexivity|]. rewrite IH. reflexivity. Qed.

Lemma strip_prefix_app (p r : string) : strip_prefix p (p ++ r) = Some r.
Proof.
  unfold strip_prefix. rewrite prefix_app, str_length_app.
  replace (String.length p + String.length r - String.length p)%nat with (String.length r) by lia.
  f_equal. induction p as [|a p IH]; simpl; [apply substring_all|exact IH].
Qed.

Lemma strip_prefix_head (a b : ascii) (p s : string) :
  a <> b -> strip_prefix (String a p) (String b s) = None.
Proof.
  intro H. unfold strip_prefix. simpl. destruct (ascii_dec a b); [congruence|reflexivity].
Qed.

Lemma code_inj a b : code a = code b -> a = b.
Proof.
  intro H. unfold code in H.
  rewrite <- (ascii_nat_embedding a), <- (ascii_nat_embedding b), H. reflexivity.
Qed.

Fixpoint vsize (v : Value) : nat :=
  match v with
  | VList l => S (list_sum (map (fun x => S (vsize x)) l))
  | VDict d => S (list_sum (map (fun kv => S (vsize (snd kv))) d))
  | _ => 1%nat
  end.

Section MapSnd.
Context {A B : Type} (g : A -> B).
Definition map_snd (l : list (string * A)) : list (string * B) :=
  map (fun kv => (fst kv, g (snd kv))) l.

Lemma insert_item_map_snd x l :
  insert_item (fst x, g (snd x)) (map_snd l) = map_snd (insert_item x l).
Proof.
  induction l as [|y l IH]; simpl; [reflexivity|].
  destruct (str_ltb (fst x) (fst y)); simpl; [reflexivity|]. rewrite IH. reflexivity.
Qed.

Lemma sort_items_map_snd l : sort_items (map_snd l) = map_snd (sort_items l).
Proof.
  induction l as [|x l IH]; simpl; [reflexivity|].
  unfold sort_items in IH |- *. rewrite IH. apply insert_item_map_snd.
Qed.
End MapSnd.

Lemma dict_set_fresh d k v : ~ In k (map fst d) -> dict_set d k v = (d ++ [(k, v)])%list.
Proof.
  induction d as [|[k' v'] d IH]; simpl; intro Hn; [reflexivity|].
  destruct (String.eqb_spec k' k); [tauto|]. rewrite IH by tauto. reflexivity.
Qed.

Lemma dict_of_pairs_nodup l : NoDup (map fst l) -> dict_of_pairs l = l.
Proof.
  unfold dict_of_pairs. intro H.
  enough (G : forall acc, NoDup (map fst (acc ++ l)) ->
                fold_left (fun d kv => dict_set d (fst kv) (snd kv)) l acc = (acc ++ l)%list)
    by (apply (G []), H).
  clear H. induction l as [|[k v] l IH]; intros acc Hnd; simpl; [rewrite app_nil_r; reflexivity|].
  rewrite dict_set_fresh.
  - rewrite IH; rewrite <- app_assoc; [reflexivity|exact Hnd].
  - rewrite map_app in Hnd. simpl in Hnd. apply NoDup_remove_2 in Hnd.
    intro Hin. apply Hnd. apply in_or_app. left. exact Hin.
Qed.

Lemma string_concat_cons sep x l :
  String.concat sep (x :: l)
  = match l with [] => x | _ => (x ++ sep ++ String.concat sep l)%string end.
Proof. reflexivity. Qed.

Lemma list_sum_perm {A} (f : A -> nat) l l' :
  Permutation l l' -> list_sum (map f l) = list_sum (map f l').
Proof.
  induction 1; simpl; try lia.
Qed.

Lemma nodupb_NoDup l : nodupb l = true -> NoDup l.
Proof.
  induction l as [|k l IH]; simpl; intro H; [constructor|].
  apply andb_true_iff in H as [H1 H2]. constructor; [|apply IH, H2].
  intro Hin. apply negb_true_iff in H1.
  assert (existsb (String.eqb k) l = true) by (apply existsb_exists; exists k; split;
    [exact Hin|apply String.eqb_refl]).
  congruence.
Qed.

Lemma strip_prefix_cons x p s : strip_prefix (String x p) (String x s) = strip_prefix p s.
Proof.
  unfold strip_prefix. cbn [String.prefix String.length].
  destruct (ascii_dec x x) as [_|n]; [|congruence].
  destruct (String.prefix p s); [|reflexivity].
  replace (S (String.length s) - S (String.length p))%nat
    with (String.length s - String.length p)%nat by lia.
  reflexivity.
Qed.

Lemma strip_prefix_nil s : strip_prefix EmptyString s = Some s.
Proof.
  unfold strip_prefix. cbn [String.prefix String.length].
  destruct s; [reflexivity|]. rewrite Nat.sub_0_r, substring_all. reflexivity.
Qed.

Lemma scan_once_other f d c s :
  Nat.eqb (code c) 34 = false -> Nat.eqb (code c) 123 = false -> Nat.eqb (code c) 91 = false ->
  scan_once (S f) d (String c s)
  = match scan_constant (String c s) with
    | Some r => Some r
    | None =>
        match scan_number (String c s) with
        | Some (t, rest) => match number_value t with Some v => Some (v, rest) | None => None end
        | None => None
        end
    end.
Proof. intros H1 H2 H3. cbn [scan_once]. rewrite H1, H2, H3. reflexivity. Qed.

Lemma take_minus_app s rest b s1 :
  s <> EmptyString -> take_minus s = (b, s1) -> take_minus (s ++ rest) = (b, s1 ++ rest)%string.
Proof.
  destruct s as [|c s]; intros H E; [congruence|]. unfold take_minus in *.
  cbn [String.append]. destruct (Nat.eqb (code c) 45); injection E as <- <-; reflexivity.
Qed.

Lemma take_sign_app s rest b s1 :
  s <> EmptyString -> take_sign s = (b, s1) -> take_sign (s ++ rest) = (b, s1 ++ rest)%string.
Proof.
  destruct s as [|c s]; intros H E; [congruence|]. unfold take_sign in *.
  cbn [String.append].
  destruct (Nat.eqb (code c) 45); [|destruct (Nat.eqb (code c) 43)];
    injection E as <- <-; reflexivity.
Qed.

Lemma int_part_app s rest ip s2 :
  int_part s = Some (ip, s2) -> (s2 <> EmptyString \/ no_digit_head rest = true) ->
  int_part (s ++ rest) = Some (ip, s2 ++ rest)%string.
Proof.
  destruct s as [|c s]; intros E H; [discriminate|]. unfold int_part in *.
  cbn [String.append].
  destruct (Nat.eqb (code c) 48); [injection E as <- <-; reflexivity|].
  destruct (is_digit c); [|discriminate].
  destruct (digits_span s) as [ds r0] eqn:Es. injection E as <- <-.
  rewrite (digits_span_app s rest ds r0 Es H). reflexivity.
Qed.

Lemma exp_part_single c : exp_part (String c EmptyString) = (None, String c EmptyString).
Proof. unfold exp_part. destruct (_ || _); reflexivity. Qed.

Lemma exp_part_app s rest ep :
  exp_part s = (ep, EmptyString) -> ends_number rest = true -> exp_part (s ++ rest) = (ep, rest).
Proof.
  intros E Hr. destruct s as [|c r].
  - cbn in E. injection E as <-. apply exp_part_stop, Hr.
  - unfold exp_part in E |- *. cbn [String.append].
    destruct (Nat.eqb (code c) 101 || Nat.eqb (code c) 69); [|discriminate].
    destruct (take_sign r) as [eneg r1] eqn:Et.
    destruct (digits_span r1) as [ds r2] eqn:Ed.
    destruct ds as [|x ds]; [discriminate|]. injection E as <- ->.
    assert (Hne : r <> EmptyString).
    { intros ->. cbn in Et. injection Et as _ <-. cbn in Ed. discriminate. }
    rewrite (take_sign_app r rest eneg r1 Hne Et).
    rewrite (digits_span_app r1 rest _ _ Ed (or_intror (ends_number_digit rest Hr))).
    reflexivity.
Qed.

Lemma frac_part_app s rest fp s3 ep :
  frac_part s = (fp, s3) -> exp_part s3 = (ep, EmptyString) -> ends_number rest = true ->
  frac_part (s ++ rest) = (fp, s3 ++ rest)%string.
Proof.
  intros E Ee Hr. destruct s as [|c [|d r]].
  - cbn in E. injection E as <- <-. apply frac_part_stop, Hr.
  - cbn in E. injection E as <- <-. rewrite exp_part_single in Ee. discriminate.
  - unfold frac_part in E |- *. cbn [String.append].
    destruct (Nat.eqb (code c) 46 && is_digit d).
    + destruct (digits_span r) as [ds r0] eqn:Es. injection E as <- <-.
      rewrite (digits_span_app r rest ds r0 Es (or_intror (ends_number_digit rest Hr))).
      reflexivity.
    + injection E as <- <-. reflexivity.
Qed.

(** A number read to the end of its text is read the same way when more
    input follows that does not continue it. *)
Lemma scan_number_app s rest t :
  scan_number s = Some (t, EmptyString) -> ends_number rest = true ->
  scan_number (s ++ rest) = Some (t, rest).
Proof.
  intros E Hr. unfold scan_number in E |- *.
  destruct (take_minus s) as [neg s1] eqn:Em.
  destruct (int_part s1) as [[ip s2]|] eqn:Ei; [|discriminate].
  destruct (frac_part s2) as [fp s3] eqn:Ef.
  destruct (exp_part s3) as [ep s4] eqn:Ee.
  injection E as Ht Hs4. subst.
  assert (Hs1 : s1 <> EmptyString) by (intros ->; discriminate).
  assert (Hs : s <> EmptyString) by (intros ->; cbn in Em; injection Em as _ <-; congruence).
  rewrite (take_minus_app s rest neg s1 Hs Em).
  rewrite (int_part_app s1 rest ip s2 Ei (or_intror (ends_number_digit rest Hr))).
  rewrite (frac_part_app s2 rest fp s3 ep Ef Ee Hr).
  rewrite (exp_part_app s3 rest ep Ee Hr). reflexivity.
Qed.

Lemma is_digit_code c : is_digit c = true -> (48 <= code c <= 57)%nat.
Proof.
  unfold is_digit. intro H. apply andb_true_iff in H as [H1 H2].
  apply Nat.leb_le in H1. apply Nat.leb_le in H2. lia.
Qed.

Lemma int_part_head s ip r :
  int_part s = Some (ip, r) -> exists c s', s = String c s' /\ is_digit c = true.
Proof.
  destruct s as [|c s']; [discriminate|]. unfold int_part. intro E. exists c, s'.
  split; [reflexivity|]. destruct (Nat.eqb (code c) 48) eqn:E48.
  - apply Nat.eqb_eq in E48. unfold is_digit. rewrite E48. reflexivity.
  - destruct (is_digit c); [reflexivity|discriminate].
Qed.

(** A number starts with a digit, or with ['-'] and a digit. *)
Lemma scan_number_head s t r :
  scan_number s = Some (t, r) ->
  exists c s', s = String c s' /\
    (is_digit c = true \/ (c = "-"%char /\ exists d s'', s' = String d s'' /\ is_digit d = true)).
Proof.
  unfold scan_number. intro E.
  destruct (take_minus s) as [neg s1] eqn:Em.
  destruct (int_part s1) as [[ip s2]|] eqn:Ei; [|discriminate].
  destruct (int_part_head s1 ip s2 Ei) as (d & s'' & -> & Hd).
  destruct s as [|c s']; [discriminate|]. exists c, s'. split; [reflexivity|].
  unfold take_minus in Em. destruct (Nat.eqb (code c) 45) eqn:E45.
  - right. injection Em; intros; subst. split; [apply code_inj, Nat.eqb_eq, E45|].
    exists d, s''. split; [reflexivity|exact Hd].
  - left. injection Em; intros; subst; exact Hd.
Qed.

Lemma scan_constant_number s t r : scan_number s = Some (t, r) -> scan_constant s = None.
Proof.
  intro E. destruct (scan_number_head s t r E) as (c & s' & -> & [Hd | (-> & d & s'' & -> & Hd)]).
  - unfold scan_constant.
    rewrite !strip_prefix_head by (intros <-; cbv in Hd; discriminate). reflexivity.
  - unfold scan_constant. rewrite strip_prefix_cons.
    rewrite !strip_prefix_head by (first [discriminate | intros <-; cbv in Hd; discriminate]).
    reflexivity.
Qed.

Lemma scan_once_number f d s t rest v :
  scan_number s = Some (t, rest) -> number_value t = Some v -> scan_once (S f) d s = Some (v, rest).
Proof.
  intros E Hv. pose proof (scan_constant_number s t rest E) as Hc.
  destruct (scan_number_head s t rest E) as (c & s' & Hs & Hh). subst s.
  assert (Hcode : (code c <> 34 /\ code c <> 123 /\ code c <> 91)%nat).
  { destruct Hh as [Hd|(-> & _)]; [apply is_digit_code in Hd; lia|cbv; lia]. }
  destruct Hcode as (N1 & N2 & N3).
  apply Nat.eqb_neq in N1, N2, N3. rewrite scan_once_other by assumption.
  rewrite Hc, E, Hv. reflexivity.
Qed.

Lemma scan_once_int f d z rest :
  int_digits_ok z = true -> ends_number rest = true ->
  scan_once (S f) d (int_repr z ++ rest) = Some (VInt z, rest).
Proof.
  intros Hz Hr. exact (scan_once_number f d _ _ _ _ (scan_number_int z rest Hr) (number_value_int z Hz)).
Qed.

Lemma scan_once_nan f d rest : scan_once (S f) d ("NaN" ++ rest) = Some (VFloat PrimFloat.nan, rest).
Proof.
  cbn [String.append]. rewrite scan_once_other by reflexivity. unfold scan_constant.
  rewrite !strip_prefix_head by discriminate. rewrite !strip_prefix_cons, strip_prefix_nil.
  reflexivity.
Qed.

Lemma scan_once_inf f d rest :
  scan_once (S f) d ("Infinity" ++ rest) = Some (VFloat PrimFloat.infinity, rest).
Proof.
  cbn [String.append]. rewrite scan_once_other by reflexivity. unfold scan_constant.
  rewrite !strip_prefix_head by discriminate. rewrite !strip_prefix_cons, strip_prefix_nil.
  reflexivity.
Qed.

Lemma scan_once_neg_inf f d rest :
  scan_once (S f) d ("-Infinity" ++ rest) = Some (VFloat PrimFloat.neg_infinity, rest).
Proof.
  cbn [String.append]. rewrite scan_once_other by reflexivity. unfold scan_constant.
  rewrite !strip_prefix_head by discriminate. rewrite !strip_prefix_cons, strip_prefix_nil.
  reflexivity.
Qed.

Lemma scan_once_float f d g rest :
  float_reads_back g = true -> ends_number rest = true ->
  scan_once (S f) d (float_json g ++ rest) = Some (VFloat g, rest).
Proof.
  intros Hg Hr. unfold float_reads_back in Hg.
  destruct (FloatOps.Prim2SF g) as [s|[]| |s m e] eqn:E.
  2, 3, 4:
    assert (Hj : float_json g = match FloatOps.Prim2SF g with
                                | S754_nan => "NaN" | S754_infinity false => "Infinity"
                                | _ => "-Infinity" end) by (unfold float_json; rewrite E; reflexivity);
    rewrite E in Hj; rewrite Hj.
  2: replace g with PrimFloat.neg_infinity
       by (apply FloatAxioms.Prim2SF_inj; rewrite E; reflexivity); apply scan_once_neg_inf.
  2: replace g with PrimFloat.infinity
       by (apply FloatAxioms.Prim2SF_inj; rewrite E; reflexivity); apply scan_once_inf.
  2: replace g with PrimFloat.nan
       by (apply FloatAxioms.Prim2SF_inj; rewrite E; reflexivity); apply scan_once_nan.
  all: destruct (scan_number (float_json g)) as [[t [|x y]]|] eqn:Es; try discriminate;
    destruct (number_value t) as [[]|] eqn:Ev; try discriminate;
    apply FloatAxioms.Leibniz.eqb_spec in Hg; subst;
    exact (scan_once_number f d _ t rest _ (scan_number_app _ rest t Es Hr) Ev).
Qed.

Lemma format_digits_head ds decpt :
  (exists c s, ds = String c s /\ (code c = 45 \/ 48 <= code c <= 57)%nat) ->
  exists c s, format_digits ds decpt = String c s /\ (code c = 45 \/ 48 <= code c <= 57)%nat.
Proof.
  intros (c & s & -> & Hc). unfold format_digits.
  destruct (_ || _).
  - destruct s; (eexists _, _; split; [reflexivity|exact Hc]).
  - destruct (decpt <=? 0)%Z eqn:E0.
    + eexists _, _. split; [reflexivity|]. right. cbv. lia.
    + apply Z.leb_gt in E0. destruct (decpt <? _)%Z.
      * destruct (Z.to_nat decpt) eqn:Ez; [lia|].
        eexists _, _. split; [reflexivity|exact Hc].
      * eexists _, _. split; [reflexivity|exact Hc].
Qed.

Lemma int_repr_head z :
  exists c s, int_repr z = String c s /\ (code c = 45 \/ (48 <= code c <= 57))%nat.
Proof.
  destruct z as [|p|p]; [exists "0"%char, EmptyString; split; [reflexivity|right; change (code "0") with 48%nat; lia]| |
    exists "-"%char, (n_repr (Npos p)); split; [reflexivity|left; reflexivity]].
  destruct (n_repr_head_code (Npos p)) as [c [s [Hd Hdig]]]. exists c, s. split; [exact Hd|].
  right. apply is_digit_code, Hdig.
Qed.

Lemma float_json_head g :
  exists c s, float_json g = String c s
  /\ (code c = 45 \/ 48 <= code c <= 57 \/ code c = 78 \/ code c = 73)%nat.
Proof.
  unfold float_json, float_repr. destruct (FloatOps.Prim2SF g) as [[]|[]| |[] m e].
  1-5: eexists _, _; split; [reflexivity|cbv; lia].
  all: cbn [String.append]; unfold repr_finite; destruct (frac_of m e) as [P Q];
    destruct (shortest _ _ _ _ _ _) as [d0 E0]; destruct (strip_zeros _ _ _) as [d E1].
  - eexists _, _. split; [reflexivity|cbv; lia].
  - destruct (format_digits_head (int_repr d) (Z.of_nat (String.length (int_repr d)) + E1)
                (int_repr_head d)) as (c & s & H & Hc).
    exists c, s. split; [exact H|tauto].
Qed.

(** An encoded value never starts with whitespace or a closing bracket. *)
Lemma dumps_head v :
  exists c s, _stable_json_dumps v = String c s
  /\ is_ws c = false /\ Nat.eqb (code c) 93 = false.
Proof.
  assert (Hn : forall c, (code c = 45 \/ 48 <= code c <= 57 \/ code c = 78 \/ code c = 73)%nat ->
            is_ws c = false /\ Nat.eqb (code c) 93 = false).
  { intros c Hc. unfold is_ws.
    split; [repeat (apply orb_false_iff; split)|]; apply Nat.eqb_neq; lia. }
  destruct v as [|[]|z|g|s|l|d|r]; try (eexists _, _; repeat split; reflexivity).
  - destruct (int_repr_head z) as [c [s [Hd Hc]]].
    exists c, s. cbn [_stable_json_dumps]. rewrite Hd. split; [reflexivity|]. apply Hn. tauto.
  - destruct (float_json_head g) as [c [s [Hd Hc]]].
    exists c, s. cbn [_stable_json_dumps]. rewrite Hd. split; [reflexivity|]. apply Hn, Hc.
Qed.

Lemma skip_ws_dumps v rest :
  skip_ws (_stable_json_dumps v ++ rest) = (_stable_json_dumps v ++ rest)%string.
Proof.
  destruct (dumps_head v) as [c [s [Hd [Hc _]]]]. rewrite Hd. simpl. rewrite Hc. reflexivity.
Qed.

Definition memb (kv : string * Value) : string :=
  (encode_str (fst kv) ++ ":" ++ _stable_json_dumps (snd kv))%string.

Lemma dumps_dict d :
  _stable_json_dumps (VDict d)
  = ("{" ++ String.concat "," (map memb (sort_items d)) ++ "}")%string.
Proof.
  transitivity ("{" ++ String.concat ","
      (map (fun kv => encode_str (fst kv) ++ ":" ++ snd kv)
         (sort_items (map_snd _stable_json_dumps d))) ++ "}")%string; [reflexivity|].
  rewrite sort_items_map_snd. unfold map_snd. rewrite map_map. reflexivity.
Qed.

(** The nesting of lists and dicts in a value. *)
Fixpoint vdepth (v : Value) : nat :=
  match v with
  | VList l => S (list_max (map vdepth l))
  | VDict d => S (list_max (map (fun kv => vdepth (snd kv)) d))
  | _ => 0
  end.

(** No [int] of the value has more than [int_max_str_digits] digits. *)
Fixpoint ints_ok (v : Value) : bool :=
  match v with
  | VInt z => int_digits_ok z
  | VList l => forallb ints_ok l
  | VDict d => forallb (fun kv => ints_ok (snd kv)) d
  | _ => true
  end.

(** A value [json.loads] gives back from its encoding when [depth] levels
    of recursion are left to it: its dicts hold no key twice, its ints
    can be written and read, each float's text reads back as that float,
    and it nests no deeper than [depth]. *)
Definition loadable (depth : nat) (v : Value) : bool :=
  keys_unique v && ints_ok v && floats_read_back v && Nat.leb (vdepth v) depth.

Lemma list_max_cons a l : list_max (a :: l) = Nat.max a (list_max l).
Proof. reflexivity. Qed.

Lemma leb_max a b d : Nat.leb (Nat.max a b) d = Nat.leb a d && Nat.leb b d.
Proof.
  apply Bool.eq_iff_eq_true. rewrite andb_true_iff, !Nat.leb_le. lia.
Qed.

Lemma loadable_list d l : loadable (S d) (VList l) = forallb (loadable d) l.
Proof.
  unfold loadable. cbn [keys_unique ints_ok floats_read_back vdepth Nat.leb].
  induction l as [|x l IH]; [reflexivity|]. cbn [forallb map]. rewrite list_max_cons, leb_max.
  rewrite <- IH. destruct (keys_unique x), (ints_ok x), (floats_read_back x), (vdepth x <=? d)%nat,
    (forallb keys_unique l), (forallb ints_ok l), (forallb floats_read_back l),
    (list_max (map vdepth l) <=? d)%nat; reflexivity.
Qed.

Lemma loadable_dict d dd :
  loadable (S d) (VDict dd) = nodupb (map fst dd) && forallb (fun kv => loadable d (snd kv)) dd.
Proof.
  unfold loadable. cbn [keys_unique ints_ok floats_read_back vdepth Nat.leb].
  destruct (nodupb (map fst dd)); cbn [andb]; [|reflexivity].
  induction dd as [|x dd IH]; [reflexivity|]. cbn [forallb map]. rewrite list_max_cons, leb_max.
  rewrite <- IH. destruct (keys_unique (snd x)), (ints_ok (snd x)), (floats_read_back (snd x)),
    (vdepth (snd x) <=? d)%nat,
    (forallb (fun kv => keys_unique (snd kv)) dd), (forallb (fun kv => ints_ok (snd kv)) dd),
    (forallb (fun kv => floats_read_back (snd kv)) dd),
    (list_max (map (fun kv => vdepth (snd kv)) dd) <=? d)%nat; reflexivity.
Qed.

Lemma loadable_list_0 l : loadable 0 (VList l) = false.
Proof. unfold loadable. cbn [vdepth Nat.leb]. apply andb_false_r. Qed.

Lemma loadable_dict_0 dd : loadable 0 (VDict dd) = false.
Proof. unfold loadable. cbn [vdepth Nat.leb]. apply andb_false_r. Qed.

Definition scan_ok (v : Value) : Prop :=
  forall f d rest, loadable d v = true -> (vsize v < f)%nat -> ends_number rest = true ->
  scan_once f d (_stable_json_dumps v ++ rest) = Some (roundtrip v, rest).

Lemma concat_dumps_head v l X :
  exists Y, (String.concat "," (_stable_json_dumps v :: map _stable_json_dumps l) ++ X)%string
            = (_stable_json_dumps v ++ Y)%string.
Proof.
  rewrite string_concat_cons. destruct (map _stable_json_dumps l).
  - exists X. reflexivity.
  - eexists. rewrite str_app_assoc. reflexivity.
Qed.

Lemma parse_elems_ok l :
  Forall scan_ok l -> l <> [] -> forall f d acc rest,
  forallb (loadable d) l = true ->
  (list_sum (map (fun x => S (vsize x)) l) < f)%nat ->
  parse_elems f d (String.concat "," (map _stable_json_dumps l) ++ String "]" rest) acc
  = Some (VList (acc ++ map roundtrip l), rest).
Proof.
  induction 1 as [|v l Hv Hl IH]; [congruence|]. intros _ f d acc rest Hk Hf.
  cbn [forallb] in Hk. apply andb_true_iff in Hk as [Hk1 Hk2].
  destruct f as [|f]; [simpl in Hf; lia|]. simpl in Hf.
  rewrite map_cons, string_concat_cons.
  destruct l as [|v' l'].
  - cbn [map parse_elems]. rewrite Hv by first [exact Hk1 | reflexivity | simpl in Hf; lia]. reflexivity.
  - destruct (concat_dumps_head v' l' (String "]" rest)) as [Y HY].
    cbn [map]. rewrite str_app_assoc. cbn [parse_elems].
    change (("," ++ String.concat "," (map _stable_json_dumps (v' :: l')))%string ++ String "]" rest)%string
      with (String "," (String.concat "," (_stable_json_dumps v' :: map _stable_json_dumps l') ++ String "]" rest)).
    rewrite Hv by first [exact Hk1 | reflexivity | simpl in Hf; lia].
    change (("," ++ ?C) ++ ?X)%string with (String "," (C ++ X)).
    cbn [skip_ws]. change (is_ws ",") with false. cbv iota.
    change (code "," =? 93)%nat with false. change (code "," =? 44)%nat with true. cbv iota.
    rewrite HY, skip_ws_dumps, <- HY.
    rewrite IH by (try discriminate; try exact Hk2; simpl in Hf |- *; lia).
    rewrite <- app_assoc. reflexivity.
Qed.

Lemma concat_cons_ne sep x l :
  l <> [] -> String.concat sep (x :: l) = (x ++ sep ++ String.concat sep l)%string.
Proof. destruct l; [congruence|reflexivity]. Qed.

Lemma parse_members_ok L :
  Forall (fun kv => scan_ok (snd kv)) L -> L <> [] ->
  forall d, forallb (fun kv => loadable d (snd kv)) L = true ->
  forall rest, exists tail,
    (String.concat "," (map memb L) ++ String "}" rest)%string = String dquote tail
    /\ forall f acc, (list_sum (map (fun kv => S (vsize (snd kv))) L) < f)%nat ->
       parse_members f d tail acc
       = Some (VDict (dict_of_pairs (acc ++ map_snd roundtrip L)), rest).
Proof.
  induction 1 as [|[k v] L Hv HL IH]; [congruence|]. intros _ d Hk rest.
  cbn [forallb snd] in Hk. apply andb_true_iff in Hk as [Hk1 Hk2]. simpl in Hv.
  destruct L as [|kv' L'].
  - cbn [map]. change (String.concat "," [memb (k, v)]) with (memb (k, v)).
    change (memb (k, v)) with (encode_str k ++ ":" ++ _stable_json_dumps v)%string.
    exists (escape_body k ++ String dquote (String ":" (_stable_json_dumps v ++ String "}" rest)))%string.
    split.
    + rewrite !str_app_assoc, encode_str_app. reflexivity.
    + intros f acc Hf. destruct f as [|f]; [simpl in Hf; lia|].
      cbn [parse_members]. rewrite scanstring_escape_body.
      cbn [skip_ws]. change (is_ws ":") with false. change (code ":" =? 58)%nat with true. cbv iota.
      rewrite skip_ws_dumps.
      rewrite Hv by first [exact Hk1 | reflexivity | simpl in Hf; lia].
      reflexivity.
  - rewrite map_cons, concat_cons_ne by (simpl; discriminate).
    change (memb (k, v)) with (encode_str k ++ ":" ++ _stable_json_dumps v)%string.
    destruct (IH ltac:(discriminate) d Hk2 rest) as [tail' [Ht' Hp']].
    exists (escape_body k ++ String dquote (String ":" (_stable_json_dumps v ++
              String "," (String dquote tail'))))%string.
    split.
    + rewrite !str_app_assoc, encode_str_app. cbn [String.append]. rewrite Ht'. reflexivity.
    + intros f acc Hf. destruct f as [|f]; [simpl in Hf; lia|].
      cbn [parse_members]. rewrite scanstring_escape_body.
      cbn [skip_ws]. change (is_ws ":") with false. change (code ":" =? 58)%nat with true. cbv iota.
      rewrite skip_ws_dumps.
      rewrite Hv by first [exact Hk1 | reflexivity | simpl in Hf; lia].
      simpl. rewrite Hp' by (simpl in Hf |- *; lia).
      rewrite <- app_assoc. reflexivity.
Qed.

Lemma forallb_perm {A} (p : A -> bool) l l' :
  Permutation l l' -> forallb p l = forallb p l'.
Proof.
  induction 1; simpl; try congruence.
  - destruct (p x), (p y); reflexivity.
Qed.

Lemma scan_once_dumps v : scan_ok v.
Proof.
  induction v as [| [] | z | g | s | l Hl | d Hd | r k] using value_ind';
    intros f dp rest Hk Hf Hr; destruct f as [|f]; try (simpl in Hf; lia).
  1-3: cbn [_stable_json_dumps String.append]; rewrite scan_once_other by reflexivity;
    unfold scan_constant; rewrite ?strip_prefix_head by discriminate;
    rewrite !strip_prefix_cons, strip_prefix_nil; reflexivity.
  - apply scan_once_int; [|exact Hr].
    unfold loadable in Hk. cbn [keys_unique ints_ok floats_read_back vdepth Nat.leb] in Hk.
    destruct (int_digits_ok z); [reflexivity|discriminate Hk].
  - apply scan_once_float; [|exact Hr].
    unfold loadable in Hk. cbn [keys_unique ints_ok floats_read_back vdepth Nat.leb andb] in Hk.
    destruct (float_reads_back g); [reflexivity|discriminate Hk].
  - change (_stable_json_dumps (VStr s)) with (encode_str s). rewrite encode_str_app.
    cbn [scan_once]. rewrite scanstring_escape_body. reflexivity.
  - (* list *)
    change (_stable_json_dumps (VList l))
      with ("[" ++ String.concat "," (map _stable_json_dumps l) ++ "]")%string.
    change (("[" ++ ?C) ++ ?X)%string with (String "[" (C ++ X)).
    rewrite str_app_assoc. change ("]" ++ rest)%string with (String "]" rest).
    destruct dp as [|dp]; [rewrite loadable_list_0 in Hk; discriminate|].
    cbn [scan_once]. change (code "[" =? 34)%nat with false. change (code "[" =? 123)%nat with false.
    change (code "[" =? 91)%nat with true. cbv iota.
    destruct l as [|v l'].
    + reflexivity.
    + destruct (concat_dumps_head v l' (String "]" rest)) as [Y HY].
      cbn [map] in *. rewrite HY, skip_ws_dumps.
      destruct (dumps_head v) as [c [s [Hd1 [_ H93]]]].
      rewrite Hd1. change (String c s ++ Y)%string with (String c (s ++ Y)).
      cbv beta iota. rewrite H93.
      change (String c (s ++ Y)) with (String c s ++ Y)%string.
      rewrite <- Hd1, <- HY.
      rewrite loadable_list in Hk.
      rewrite (parse_elems_ok (v :: l') Hl ltac:(discriminate)); [reflexivity|exact Hk|].
      simpl in Hf |- *. lia.
  - (* dict *)
    destruct dp as [|dp]; [rewrite loadable_dict_0 in Hk; discriminate|].
    rewrite loadable_dict in Hk. apply andb_true_iff in Hk as [Hk1 Hk2].
    pose proof (Permutation_sym (sort_items_perm d)) as Hperm.
    rewrite dumps_dict.
    change (("{" ++ ?C) ++ ?X)%string with (String "{" (C ++ X)).
    rewrite str_app_assoc. change ("}" ++ rest)%string with (String "}" rest).
    cbn [scan_once]. change (code "{" =? 34)%nat with false. change (code "{" =? 123)%nat with true.
    cbv iota.
    change (roundtrip (VDict d)) with (VDict (sort_items (map_snd roundtrip d))).
    rewrite sort_items_map_snd.
    destruct d as [|kv d'].
    + reflexivity.
    + remember (sort_items (kv :: d')) as L eqn:EL.
      assert (HL : L <> []).
      { intro E. subst L. rewrite E in Hperm. apply Permutation_sym, Permutation_nil in Hperm. discriminate. }
      destruct (parse_members_ok L) with (d := dp) (rest := rest) as [tail [Ht Hp]]; [ | exact HL | |].
      * subst L. apply (Permutation_Forall Hperm). exact Hd.
      * subst L. rewrite <- (forallb_perm _ _ _ Hperm). exact Hk2.
      * rewrite Ht. cbn [skip_ws]. change (is_ws dquote) with false.
        change (code dquote =? 125)%nat with false. change (code dquote =? 34)%nat with true.
        cbv iota. rewrite Hp.
        -- rewrite dict_of_pairs_nodup; [reflexivity|].
           rewrite app_nil_l. unfold map_snd. rewrite map_map. cbn [fst].
           apply (Permutation_NoDup (Permutation_map fst Hperm)).
           apply nodupb_NoDup. rewrite EL in *. exact Hk1.
        -- rewrite <- (list_sum_perm _ _ _ Hperm). simpl in Hf |- *. lia.
  - change (_stable_json_dumps (VOther r k)) with (encode_str r). rewrite encode_str_app.
    cbn [scan_once]. rewrite scanstring_escape_body. reflexivity.
Qed.

Lemma concat_len_bound (L : list string) :
  (list_sum (map (fun s => S (String.length s)) L) <= String.length (String.concat "," L) + 1)%nat.
Proof.
  induction L as [|x L IH]; simpl; [lia|].
  destruct L as [|y L']; simpl; [lia|].
  rewrite str_length_app. simpl in IH |- *. lia.
Qed.

Lemma list_sum_map_le {A} (f g : A -> nat) l :
  Forall (fun x => f x <= g x)%nat l -> (list_sum (map f l) <= list_sum (map g l))%nat.
Proof. induction 1; simpl; lia. Qed.

Lemma vsize_le_length v : (vsize v <= String.length (_stable_json_dumps v))%nat.
Proof.
  induction v as [| b | z | g | s | l Hl | d Hd | r k] using value_ind';
    try (destruct (dumps_head (VBool b)) as [c [s [E _]]]; rewrite E; simpl; lia);
    try (destruct (dumps_head (VInt z)) as [c [s' [E _]]]; rewrite E; simpl; lia);
    try (destruct (dumps_head (VFloat g)) as [c [s' [E _]]]; rewrite E; simpl; lia);
    try (destruct (dumps_head (VStr s)) as [c [s' [E _]]]; rewrite E; simpl; lia);
    try (destruct (dumps_head (VOther r k)) as [c [s' [E _]]]; rewrite E; simpl; lia);
    try (simpl; lia).
  - change (_stable_json_dumps (VList l))
      with ("[" ++ String.concat "," (map _stable_json_dumps l) ++ "]")%string.
    cbn [vsize]. cbn [String.append String.length]. rewrite str_length_app. simpl.
    pose proof (concat_len_bound (map _stable_json_dumps l)) as HB. rewrite map_map in HB.
    assert (list_sum (map (fun x => S (vsize x)) l)
            <= list_sum (map (fun x => S (String.length (_stable_json_dumps x))) l))%nat.
    { apply list_sum_map_le. eapply Forall_impl; [|exact Hl]. simpl. lia. }
    lia.
  - rewrite dumps_dict. cbn [vsize]. cbn [String.append String.length]. rewrite str_length_app. simpl.
    pose proof (sort_items_perm d) as Hperm.
    rewrite <- (list_sum_perm _ _ _ Hperm).
    pose proof (concat_len_bound (map memb (sort_items d))) as HB. rewrite map_map in HB.
    assert (list_sum (map (fun kv => S (vsize (snd kv))) (sort_items d))
            <= list_sum (map (fun kv => S (String.length (memb kv))) (sort_items d)))%nat.
    { apply list_sum_map_le. apply (Permutation_Forall (Permutation_sym Hperm)) in Hd.
      eapply Forall_impl; [|exact Hd]. intros [k v] Hv. simpl in Hv |- *.
      unfold memb. cbn [fst snd]. rewrite !str_length_app. simpl. lia. }
    lia.
Qed.

Lemma json_loads_dumps d v :
  loadable d v = true -> json_loads d (_stable_json_dumps v) = Some (roundtrip v).
Proof.
  intros Hk. unfold json_loads. rewrite <- (str_app_nil_r (_stable_json_dumps v)).
  rewrite skip_ws_dumps. rewrite scan_once_dumps; [reflexivity|exact Hk| |reflexivity].
  rewrite str_length_app. pose proof (vsize_le_length v). simpl. lia.
Qed.

(* ------------------------------------------------------------------ *)
(** ** The cache lookup only reads *)

Definition is_read (e : Event) : bool := match e with ERead _ => true | _ => false end.
Definition is_fetch (e : Event) : bool := match e with EFetch _ => true | _ => false end.
Definition is_hook (e : Event) : bool := match e with EHook _ => true | _ => false end.

(** [w'] differs from [w] by clock readings and [ERead] events only. *)
Definition only_reads (w w' : World) : Prop :=
  w_fs w' = w_fs w /\ w_read_err w' = w_read_err w /\ w_write_err w' = w_write_err w
  /\ w_clock w' = w_clock w /\ w_stat_err w' = w_stat_err w /\ w_loads_depth w' = w_loads_depth w
  /\ w_dumps_depth w' = w_dumps_depth w
  /\ exists l, w_log w' = (w_log w ++ l)%list /\ forallb is_read l = true.

Definition reads_only {A} (m : M A) : Prop := forall w, only_reads w (snd (m w)).

Lemma only_reads_refl w : only_reads w w.
Proof. repeat split; try reflexivity. exists []. rewrite app_nil_r. split; reflexivity. Qed.

Lemma only_reads_trans w1 w2 w3 : only_reads w1 w2 -> only_reads w2 w3 -> only_reads w1 w3.
Proof.
  intros (F1 & R1 & W1 & C1 & S1 & D1 & E1 & l1 & L1 & H1)
    (F2 & R2 & W2 & C2 & S2 & D2 & E2 & l2 & L2 & H2).
  repeat split; try congruence.
  exists (l1 ++ l2)%list. rewrite L2, L1, app_assoc. split; [reflexivity|].
  rewrite forallb_app, H1, H2. reflexivity.
Qed.

Lemma reads_only_ret {A} (a : A) : reads_only (ret a).
Proof. intro w. apply only_reads_refl. Qed.

Lemma reads_only_raise {A} e : reads_only (@raise A e).
Proof. intro w. apply only_reads_refl. Qed.

Lemma reads_only_bind {A B} (m : M A) (k : A -> M B) :
  reads_only m -> (forall a, reads_only (k a)) -> reads_only (bind m k).
Proof.
  intros Hm Hk w. unfold bind. specialize (Hm w).
  destruct (m w) as [[a|e] w'] eqn:E; simpl in Hm |- *; [|exact Hm].
  eapply only_reads_trans; [exact Hm|apply Hk].
Qed.

Lemma reads_only_try {A} (m : M A) (h : Exn -> M A) :
  reads_only m -> (forall e, reads_only (h e)) -> reads_only (try_except m h).
Proof.
  intros Hm Hh w. unfold try_except. specialize (Hm w).
  destruct (m w) as [[a|e] w'] eqn:E; simpl in Hm |- *; [exact Hm|].
  eapply only_reads_trans; [exact Hm|apply Hh].
Qed.

Lemma reads_only_path_exists p : reads_only (path_exists p).
Proof. intro w. unfold path_exists. destruct (w_stat_err w p); apply only_reads_refl. Qed.

Lemma reads_only_read_json p : reads_only (_read_json p).
Proof.
  unfold _read_json. apply reads_only_bind.
  - unfold read_text. apply reads_only_bind.
    + intro w. repeat split; try reflexivity. exists [ERead p]. split; reflexivity.
    + intros _ w. destruct (w_read_err w p); [apply only_reads_refl|].
      destruct (w_fs w p); apply only_reads_refl.
  - intros s w. destruct (json_loads (w_loads_depth w) s); apply only_reads_refl.
Qed.

Lemma reads_only_time : reads_only time_time.
Proof. intro w. repeat split; try reflexivity. exists []. rewrite app_nil_r. split; reflexivity. Qed.

Lemma reads_only_created_at v : reads_only (meta_get_created_at v).
Proof. destruct v; try apply reads_only_raise. apply reads_only_ret. Qed.

Lemma reads_only_py_float v : reads_only (py_float v).
Proof. intro w. apply only_reads_refl. Qed.

Create HintDb reads.
#[local] Hint Resolve reads_only_ret reads_only_raise reads_only_bind reads_only_try
  reads_only_path_exists reads_only_read_json reads_only_time reads_only_created_at
  reads_only_py_float : reads.

Lemma reads_only_lookup ttl outdir : reads_only (cache_lookup ttl outdir).
Proof.
  unfold cache_lookup. apply reads_only_try; [|auto with reads].
  apply reads_only_bind; [destruct ttl; auto with reads|].
  intro u. destruct ttl as [ttl|]; [destruct u|]; auto 10 with reads.
  repeat (apply reads_only_bind; [auto with reads|intro]).
  destruct (float_gt_int _ _); auto 10 with reads.
Qed.

Lemma reads_only_load refresh ttl outdir : reads_only (load_from_cache refresh ttl outdir).
Proof.
  unfold load_from_cache. destruct refresh; [auto with reads|].
  apply reads_only_bind; [auto with reads|]. intros []; [apply reads_only_lookup|auto with reads].
Qed.

Lemma lookup_no_raise ttl outdir w : exists o, fst (cache_lookup ttl outdir w) = Ok o.
Proof.
  unfold cache_lookup, try_except.
  match goal with |- context [match ?m w with _ => _ end] => destruct (m w) as [[o|e] w'] end;
    [exists o; reflexivity|exists None; reflexivity].
Qed.

(** Step 1 raises only when [result_path.exists()] does, which happens
    outside the [try]; it then changes nothing. *)
Lemma load_no_raise refresh ttl outdir w :
  (exists o, fst (load_from_cache refresh ttl outdir w) = Ok o)
  \/ (load_from_cache refresh ttl outdir w = (Raise OSError, w)
      /\ refresh = false /\ w_stat_err w (result_file outdir) = true).
Proof.
  unfold load_from_cache. destruct refresh; [left; exists None; reflexivity|].
  unfold bind, path_exists. destruct (w_stat_err w (result_file outdir)) eqn:Es;
    [right; repeat split; reflexivity|left].
  destruct (w_fs w (result_file outdir)); simpl; [apply lookup_no_raise|exists None; reflexivity].
Qed.

(* ------------------------------------------------------------------ *)
(** ** What the miss path does *)

(** The events of a complete write phase, in order. *)
Definition hook_trace (outdir : path) : list Event :=
  [EWrite (meta_file outdir); EWrite (payload_file outdir); EWrite (result_file outdir);
   EHook outdir].

Ltac leaf k :=
  exists k; split; [lia|]; split; [simpl; rewrite ?app_nil_r, <- ?app_assoc; reflexivity|];
  split; [intro; try discriminate; lia|simpl; intro; try discriminate; reflexivity].

Lemma persist_shape outdir meta payload response se w :
  exists k, (k <= 4)%nat
  /\ w_log (snd (persist outdir meta payload response se w))
     = (w_log w ++ firstn k (hook_trace outdir))%list
  /\ (se = None -> k <= 3)%nat
  /\ (fst (persist outdir meta payload response se w) = Ok tt
      -> k = match se with Some _ => 4 | None => 3 end)%nat.
Proof.
  unfold persist, _write_json, _atomic_write, mkdir, emit, call_save_extra, bind, ret, raise.
  repeat (cbn -[meta_file payload_file result_file parent];
    match goal with
    | |- context [if w_write_err ?w0 ?p then _ else _] => destruct (w_write_err w0 p)
    | |- context [match dumps_exn ?b ?v with _ => _ end] => destruct (dumps_exn b v)
    end).
  all: try (destruct se as [h|]; cbn -[meta_file payload_file result_file parent];
    [match goal with |- context [h ?a ?b ?c] => destruct (h a b c) as [? []] end;
     cbn -[meta_file payload_file result_file parent]|]).
  all: first [leaf 0%nat | leaf 1%nat | leaf 2%nat | leaf 3%nat | leaf 4%nat].
Qed.

Lemma fetch_and_persist_shape step endpoint key outdir payload fetch_fn version se w :
  exists k (warn : bool), (k <= 4)%nat /\ (se = None -> k <= 3)%nat
  /\ w_log (snd (fetch_and_persist step endpoint key outdir payload fetch_fn version se w))
     = (w_log w ++ EFetch payload :: firstn k (hook_trace outdir)
          ++ (if warn then [EWarn] else []))%list
  /\ (forall rc resp, fetch_fn payload = Some (rc, resp) ->
      fst (fetch_and_persist step endpoint key outdir payload fetch_fn version se w)
      = Ok (rc, resp)).
Proof.
  unfold fetch_and_persist, call_fetch, bind, emit, time_time, try_except, ret, raise.
  destruct (fetch_fn payload) as [[rc resp]|] eqn:Ef.
  - cbn -[persist hook_trace firstn].
    match goal with |- context [persist ?a ?b ?c ?d ?e ?w2] =>
      destruct (persist_shape a b c d e w2) as (k & Hk4 & Hlog & Hse & _);
      destruct (persist a b c d e w2) as [[[]|ex] w3] eqn:Ep end;
      cbn -[hook_trace firstn] in Hlog |- *.
    + exists k, false. repeat split; try assumption.
      * rewrite Hlog, <- app_assoc, app_nil_r. reflexivity.
      * intros rc' resp' E. injection E as <- <-. reflexivity.
    + exists k, true. repeat split; try assumption.
      * rewrite Hlog, <- !app_assoc. reflexivity.
      * intros rc' resp' E. injection E as <- <-. reflexivity.
  - exists 0%nat, false. cbn. repeat split; try lia.
    intros rc resp E. discriminate.
Qed.

Lemma read_json_ok p w s v :
  w_read_err w p = false -> w_fs w p = Some s -> json_loads (w_loads_depth w) s = Some v ->
  _read_json p w = (Ok v, set_log w (w_log w ++ [ERead p])%list).
Proof.
  intros R F J. unfold _read_json, read_text, emit, bind, ret. cbn. rewrite R, F. cbn. rewrite J. reflexivity.
Qed.

Lemma read_json_fail p w s :
  w_fs w p = Some s -> (w_read_err w p = true \/ json_loads (w_loads_depth w) s = None) ->
  exists e, _read_json p w = (Raise e, set_log w (w_log w ++ [ERead p])%list).
Proof.
  intros F [R|J]; unfold _read_json, read_text, emit, bind, ret, raise; cbn.
  - rewrite R. eexists. reflexivity.
  - rewrite F. destruct (w_read_err w p); cbn; [eexists; reflexivity|]. rewrite J. eexists. reflexivity.
Qed.

Lemma query_unfold step endpoint payload fetch_fn cache_dir version ttl refresh se w :
  let outdir := [cache_dir; step; _hash_key endpoint payload version] in
  query_nim_cached step endpoint payload fetch_fn cache_dir version ttl refresh se w
  = match load_from_cache refresh ttl outdir w with
    | (Ok (Some r), w1) => (Ok r, w1)
    | (Ok None, w1) =>
        fetch_and_persist step endpoint (_hash_key endpoint payload version) outdir payload
          fetch_fn version se w1
    | (Raise e, w1) => (Raise e, w1)
    end.
Proof. intro outdir. unfold query_nim_cached, bind. cbn zeta. destruct (load_from_cache _ _ _ w) as [[[r|]|e] w1]; reflexivity. Qed.

Lemma parent_meta o : parent (meta_file o) = o.
Proof. apply parent_snoc. Qed.
Lemma parent_payload o : parent (payload_file o) = o.
Proof. apply parent_snoc. Qed.
Lemma parent_result o : parent (result_file o) = o.
Proof. apply parent_snoc. Qed.

(** Only the files change on the miss path: the error oracles and the
    clock are what they were. *)
Lemma fetch_and_persist_frame step endpoint key outdir payload fetch_fn version se w :
  let w' := snd (fetch_and_persist step endpoint key outdir payload fetch_fn version se w) in
  w_read_err w' = w_read_err w /\ w_write_err w' = w_write_err w /\ w_clock w' = w_clock w
  /\ w_stat_err w' = w_stat_err w /\ w_loads_depth w' = w_loads_depth w
  /\ w_dumps_depth w' = w_dumps_depth w.
Proof.
  unfold fetch_and_persist, call_fetch, persist, _write_json, _atomic_write, mkdir, emit,
    call_save_extra, time_time, try_except, bind, ret, raise.
  destruct (fetch_fn payload) as [[rc resp]|]; [|cbn; repeat split].
  destruct version.
  all: repeat (cbn -[meta_file payload_file result_file parent];
    match goal with
    | |- context [if w_write_err ?w0 ?p then _ else _] => destruct (w_write_err w0 p)
    | |- context [match dumps_exn ?b ?v with _ => _ end] => destruct (dumps_exn b v)
    | |- context [match w_dumps_depth ?w0 with _ => _ end] => destruct (w_dumps_depth w0) eqn:?
    end).
  all: try (destruct se as [h|]; cbn -[meta_file payload_file result_file parent];
    [match goal with |- context [h ?a ?b ?c] => destruct (h a b c) as [? []] end|]).
  all: cbn; repeat split; assumption.
Qed.

(** With the writes succeeding and a hook that leaves [result.json] alone,
    the miss path leaves the encoded response in [result.json]. *)
Lemma fetch_and_persist_stores step endpoint key outdir payload fetch_fn version se w rc resp :
  fetch_fn payload = Some (rc, resp) ->
  (0 < w_dumps_depth w)%nat ->
  dumps_exn (w_dumps_depth w) payload = None -> dumps_exn (w_dumps_depth w) resp = None ->
  w_write_err w outdir = false -> w_write_err w (meta_file outdir) = false ->
  w_write_err w (payload_file outdir) = false -> w_write_err w (result_file outdir) = false ->
  match se with
  | Some h => forall fs, fst (h resp outdir fs) (result_file outdir) = fs (result_file outdir)
  | None => True
  end ->
  w_fs (snd (fetch_and_persist step endpoint key outdir payload fetch_fn version se w))
    (result_file outdir) = Some (_stable_json_dumps resp).
Proof.
  intros Ef Hb D1 D2 W0 W1 W2 W3 Hh.
  unfold fetch_and_persist, call_fetch, persist, _write_json, _atomic_write, mkdir, emit,
    call_save_extra, time_time, try_except, bind, ret, raise.
  rewrite Ef. destruct (w_dumps_depth w) as [|b] eqn:Eb; [lia|].
  assert (Dm : forall now, dumps_exn (S b) (meta_record step key endpoint version now) = None)
    by (intro; destruct version; reflexivity).
  repeat (cbn -[meta_file payload_file result_file parent fs_upd _stable_json_dumps meta_record];
    rewrite ?Eb, ?Dm;
    match goal with
    | |- context [if w_write_err ?w0 ?p then _ else _] =>
      let E := fresh in destruct (w_write_err w0 p) eqn:E;
      [exfalso; cbn in E; rewrite ?parent_meta, ?parent_payload, ?parent_result in E; congruence|]
    | |- context [match dumps_exn ?b ?v with _ => _ end] =>
      let E := fresh in destruct (dumps_exn b v) eqn:E; [exfalso; congruence|]
    end).
  assert (Hr : forall fs, fs_upd fs (result_file outdir) (Some (_stable_json_dumps resp))
                 (result_file outdir) = Some (_stable_json_dumps resp))
    by (intro fs; unfold fs_upd; rewrite path_eqb_refl; reflexivity).
  destruct se as [h|]; cbn -[meta_file payload_file result_file parent fs_upd _stable_json_dumps];
    [|apply Hr].
  match goal with |- context [h ?a ?b ?c] =>
    pose proof (Hh c) as Hc; destruct (h a b c) as [fs' []] end;
    cbn -[meta_file payload_file result_file parent fs_upd _stable_json_dumps] in Hc |- *;
    rewrite Hc; apply Hr.
Qed.

Lemma load_ttl_meta_dict ttl outdir w s m d c :
  w_stat_err w (result_file outdir) = false -> w_stat_err w (meta_file outdir) = false ->
  w_fs w (result_file outdir) = Some s ->
  w_fs w (meta_file outdir) = Some m -> w_read_err w (meta_file outdir) = false ->
  json_loads (w_loads_depth w) m = Some (VDict d) ->
  py_float_res (match dict_get d "created_at" with Some x => x | None => VInt 0 end) = Ok c ->
  load_from_cache false (Some ttl) outdir w
  = let w1 := set_tick (set_log w (w_log w ++ [ERead (meta_file outdir)])%list) (S (w_tick w)) in
    if float_gt_int (PrimFloat.sub (w_clock w (w_tick w)) c) ttl then (Ok None, w1)
    else match _read_json (result_file outdir) w1 with
         | (Ok v, w2) => (Ok (Some (200%Z, mark_from_cache v)), w2)
         | (Raise _, w2) => (Ok None, w2)
         end.
Proof.
  intros Sr Sm Fr Fm Rm Jm Hc.
  unfold load_from_cache, cache_lookup, path_exists, bind, try_except, ret, time_time, py_float.
  cbn -[result_file meta_file _read_json json_loads dict_get py_float_res float_gt_int].
  rewrite Sr, Fr, Sm. cbn -[result_file meta_file _read_json json_loads dict_get py_float_res float_gt_int].
  rewrite Fm. cbn -[result_file meta_file _read_json json_loads dict_get py_float_res float_gt_int].
  rewrite (read_json_ok _ _ _ _ Rm Fm Jm).
  cbn -[result_file meta_file _read_json json_loads dict_get py_float_res float_gt_int]. rewrite Hc.
  cbn -[result_file meta_file _read_json json_loads dict_get py_float_res float_gt_int].
  destruct (float_gt_int _ _); [reflexivity|].
  destruct (_read_json _ _) as [[v|e] w2]; reflexivity.
Qed.

Lemma load_ttl_no_meta ttl outdir w s :
  w_stat_err w (result_file outdir) = false -> w_stat_err w (meta_file outdir) = false ->
  w_fs w (result_file outdir) = Some s -> w_fs w (meta_file outdir) = None ->
  load_from_cache false (Some ttl) outdir w
  = match _read_json (result_file outdir) w with
    | (Ok v, w2) => (Ok (Some (200%Z, mark_from_cache v)), w2)
    | (Raise _, w2) => (Ok None, w2)
    end.
Proof.
  intros Sr Sm Fr Fm.
  unfold load_from_cache, cache_lookup, path_exists, bind, try_except, ret.
  cbn -[result_file meta_file _read_json]. rewrite Sr, Fr, Sm, Fm.
  cbn -[result_file meta_file _read_json].
  destruct (_read_json _ _) as [[v|e] w2]; reflexivity.
Qed.

Lemma load_ttl_bad_meta ttl outdir w s m :
  w_stat_err w (result_file outdir) = false -> w_stat_err w (meta_file outdir) = false ->
  w_fs w (result_file outdir) = Some s -> w_fs w (meta_file outdir) = Some m ->
  (w_read_err w (meta_file outdir) = true \/ json_loads (w_loads_depth w) m = None) ->
  load_from_cache false (Some ttl) outdir w
  = (Ok None, set_log w (w_log w ++ [ERead (meta_file outdir)])%list).
Proof.
  intros Sr Sm Fr Fm Hm. destruct (read_json_fail _ _ _ Fm Hm) as [e Ee].
  unfold load_from_cache, cache_lookup, path_exists, bind, try_except, ret.
  cbn -[result_file meta_file _read_json]. rewrite Sr, Fr, Sm, Fm.
  cbn -[result_file meta_file _read_json]. rewrite Ee. reflexivity.
Qed.

Lemma bind_ok_inv {A B} (m : M A) (k : A -> M B) w b w' :
  bind m k w = (Ok b, w') -> exists a w1, m w = (Ok a, w1) /\ k a w1 = (Ok b, w').
Proof.
  unfold bind. destruct (m w) as [[a|e] w1]; [|discriminate]. intro H. exists a, w1. auto.
Qed.

Lemma reads_from {A} (m : M A) w a w1 :
  reads_only m -> m w = (Ok a, w1) -> only_reads w w1.
Proof. intros Hm E. specialize (Hm w). rewrite E in Hm. exact Hm. Qed.

(** When [result.json] cannot be read or parsed, the lookup ends in a miss,
    whatever [meta.json] holds. *)
Lemma load_result_unreadable ttl outdir w s :
  w_stat_err w (result_file outdir) = false -> w_fs w (result_file outdir) = Some s ->
  (w_read_err w (result_file outdir) = true \/ json_loads (w_loads_depth w) s = None) ->
  exists w1, load_from_cache false ttl outdir w = (Ok None, w1) /\ only_reads w w1.
Proof.
  intros Sr Fr Hbad.
  assert (Hno : forall w' v w'', only_reads w w' ->
                  _read_json (result_file outdir) w' <> (Ok v, w'')).
  { intros w' v w'' (F & R & _ & _ & _ & D & _) E.
    assert (Fr' : w_fs w' (result_file outdir) = Some s) by (rewrite F; exact Fr).
    assert (Hbad' : w_read_err w' (result_file outdir) = true
                    \/ json_loads (w_loads_depth w') s = None)
      by (rewrite R, D; exact Hbad).
    destruct (read_json_fail _ _ _ Fr' Hbad') as [e Ee]. congruence. }
  pose proof (reads_only_load false ttl outdir w) as Hro.
  destruct (load_from_cache false ttl outdir w) as [r w1] eqn:El.
  exists w1. split; [|exact Hro]. f_equal.
  revert El. unfold load_from_cache, path_exists, bind at 1. cbn -[cache_lookup result_file].
  rewrite Sr, Fr. cbn -[cache_lookup result_file]. intro El.
  unfold cache_lookup, try_except in El.
  match type of El with
  | match ?m w with _ => _ end = _ => destruct (m w) as [[[x|]|e] w2] eqn:E
  end; [|injection El as <- _; reflexivity|injection El as <- _; reflexivity].
  exfalso. apply bind_ok_inv in E as (u & w3 & E1 & E2).
  destruct ttl as [ttl|]; [|cbn in E1; injection E1 as <- <-;
    apply bind_ok_inv in E2 as (resp & w4 & E3 & _); exact (Hno _ _ _ (only_reads_refl w) E3)].
  assert (O1 : only_reads w w3) by (eapply reads_from; [apply reads_only_path_exists|exact E1]).
  destruct u.
  - apply bind_ok_inv in E2 as (mv & w4 & E3 & E2).
    pose proof (reads_from _ _ _ _ (reads_only_read_json _) E3) as O2.
    apply bind_ok_inv in E2 as (now & w5 & E4 & E2).
    pose proof (reads_from _ _ _ _ reads_only_time E4) as O3.
    apply bind_ok_inv in E2 as (ca & w6 & E5 & E2).
    pose proof (reads_from _ _ _ _ (reads_only_created_at _) E5) as O4.
    apply bind_ok_inv in E2 as (cr & w7 & E6 & E2).
    pose proof (reads_from _ _ _ _ (reads_only_py_float _) E6) as O5.
    destruct (float_gt_int _ _); [discriminate|].
    apply bind_ok_inv in E2 as (resp & w8 & E7 & _).
    apply (Hno _ _ _ (only_reads_trans _ _ _ O1 (only_reads_trans _ _ _ O2
             (only_reads_trans _ _ _ O3 (only_reads_trans _ _ _ O4 O5)))) E7).
  - apply bind_ok_inv in E2 as (resp & w4 & E3 & _). exact (Hno _ _ _ O1 E3).
Qed.

Lemma load_no_ttl_hit outdir w s v :
  w_stat_err w (result_file outdir) = false ->
  w_fs w (result_file outdir) = Some s -> w_read_err w (result_file outdir) = false ->
  json_loads (w_loads_depth w) s = Some v ->
  load_from_cache false None outdir w
  = (Ok (Some (200%Z, mark_from_cache v)), set_log w (w_log w ++ [ERead (result_file outdir)])%list).
Proof.
  intros Sr Fr Rr Jr.
  unfold load_from_cache, cache_lookup, path_exists, bind, try_except, ret.
  cbn -[result_file meta_file _read_json]. rewrite Sr, Fr.
  cbn -[result_file meta_file _read_json]. rewrite (read_json_ok _ _ _ _ Rr Fr Jr). reflexivity.
Qed.

Lemma hook_trace_no_read k (warn : bool) outdir :
  existsb is_read (firstn k (hook_trace outdir) ++ (if warn then [EWarn] else []))%list = false.
Proof.
  rewrite existsb_app.
  assert (existsb is_read (firstn k (hook_trace outdir)) = false).
  { destruct k as [|[|[|[|[|k]]]]]; reflexivity. }
  rewrite H. destruct warn; reflexivity.
Qed.

(** A value with no [VOther]: what [json.loads] can return. *)
Fixpoint json_native (v : Value) : bool :=
  match v with
  | VList l => forallb json_native l
  | VDict d => forallb (fun kv => json_native (snd kv)) d
  | VOther _ _ => false
  | _ => true
  end.

Lemma roundtrip_py_eq v : keys_unique v = true -> json_native v = true -> py_eq (roundtrip v) v.
Proof.
  induction v as [| b | z | g | s | l Hl | d Hd | r k] using value_ind'; intros Hk Hn;
    try constructor; try discriminate.
  - simpl in Hk, Hn. induction Hl as [|x l Hx Hl IH]; constructor.
    + simpl in Hk, Hn. apply andb_true_iff in Hk as [Hk1 _]. apply andb_true_iff in Hn as [Hn1 _].
      apply Hx; assumption.
    + simpl in Hk, Hn. apply andb_true_iff in Hk as [_ Hk2]. apply andb_true_iff in Hn as [_ Hn2].
      apply IH; assumption.
  - simpl in Hk, Hn. apply andb_true_iff in Hk as [Hk1 Hk2].
    change (py_eq (VDict (sort_items (map_snd roundtrip d))) (VDict d)).
    rewrite sort_items_map_snd.
    pose proof (sort_items_perm d) as Hp.
    apply py_eq_dict with (d2' := sort_items d); [| apply Permutation_sym, Hp |].
    + unfold map_snd. rewrite map_map. cbn [fst].
      apply (Permutation_NoDup (Permutation_map fst (Permutation_sym Hp))).
      apply nodupb_NoDup, Hk1.
    + apply (Permutation_Forall (Permutation_sym Hp)) in Hd.
      rewrite (forallb_perm _ _ _ (Permutation_sym Hp)) in Hk2.
      rewrite (forallb_perm _ _ _ (Permutation_sym Hp)) in Hn.
      clear Hp Hk1. induction Hd as [|[k x] L Hx HL IH]; constructor.
      * simpl in Hk2, Hn, Hx. apply andb_true_iff in Hk2 as [Hk2 _].
        apply andb_true_iff in Hn as [Hn1 _]. split; [reflexivity|]. apply Hx; assumption.
      * simpl in Hk2, Hn. apply andb_true_iff in Hk2 as [_ Hk2].
        apply andb_true_iff in Hn as [_ Hn2]. apply IH; assumption.
Qed.

(** [now - 0.0] is [now], for every float. *)
Lemma float_sub_zero x : PrimFloat.sub x (Z_to_float 0) = x.
Proof.
  apply FloatAxioms.Prim2SF_inj. rewrite FloatAxioms.sub_spec.
  assert (E : FloatOps.Prim2SF (Z_to_float 0) = S754_zero false) by (vm_compute; reflexivity).
  rewrite E. destruct (FloatOps.Prim2SF x) as [[]|[]| |[] m e]; reflexivity.
Qed.

Lemma first_exn_none l : first_exn l = None -> Forall (fun o => o = None) l.
Proof.
  induction l as [|[e|] l IH]; cbn; intro H; [constructor|discriminate|].
  constructor; [reflexivity|apply IH, H].
Qed.

(** What [json.dumps] accepts has only ints it can write. *)
Lemma dumps_exn_ints b v : dumps_exn b v = None -> ints_ok v = true.
Proof.
  revert b. induction v as [| bo | z | g | s | l Hl | d Hd | r k] using value_ind';
    intros b H; try reflexivity.
  - cbn [dumps_exn ints_ok] in H |- *. destruct (int_digits_ok z); [reflexivity|discriminate].
  - destruct b as [|b]; [discriminate|]. cbn [dumps_exn ints_ok] in H |- *.
    apply first_exn_none, Forall_map in H. apply forallb_forall. intros x Hx.
    rewrite Forall_forall in Hl, H. apply (Hl x Hx b), H, Hx.
  - destruct b as [|b]; [discriminate|]. cbn [dumps_exn ints_ok] in H |- *.
    apply first_exn_none in H.
    apply (Permutation_Forall (Permutation_map snd (sort_items_perm _))) in H.
    rewrite map_map in H. apply Forall_map in H. apply forallb_forall. intros x Hx.
    rewrite Forall_forall in Hd, H. apply (Hd x Hx b), H, Hx.
Qed.

(** Step 1 returns only when [result_path.exists()] did. *)
Lemma load_ok_stat ttl outdir w o :
  fst (load_from_cache false ttl outdir w) = Ok o -> w_stat_err w (result_file outdir) = false.
Proof.
  intro H. destruct (w_stat_err w (result_file outdir)) eqn:E; [|reflexivity].
  unfold load_from_cache, bind, path_exists in H. rewrite E in H. discriminate.
Qed.

(* ------------------------------------------------------------------ *)
(** ** [query_nim_cached]: hits, misses and the write phase *)

(** C7: with [refresh=True] the cache is bypassed: the first event of the
    call is [fetch_fn(payload)], no stored file is read during the call,
    and the call returns what [fetch_fn] returned. *)
Theorem refresh_bypasses_cache step endpoint payload fetch_fn cache_dir version ttl se w :
  let res := query_nim_cached step endpoint payload fetch_fn cache_dir version ttl true se w in
  (exists post, w_log (snd res) = (w_log w ++ EFetch payload :: post)%list
                /\ existsb is_read post = false)
  /\ (forall rc resp, fetch_fn payload = Some (rc, resp) -> fst res = Ok (rc, resp)).
Proof.
  intro res. unfold res. rewrite query_unfold. cbn [load_from_cache ret].
  destruct (fetch_and_persist_shape step endpoint (_hash_key endpoint payload version)
              [cache_dir; step; _hash_key endpoint payload version] payload fetch_fn version se w)
    as (k & warn & _ & _ & Hlog & Hres).
  split; [|exact Hres].
  eexists. split; [exact Hlog|]. apply hook_trace_no_read.
Qed.

(** C6: on a miss, the call returns exactly the pair [fetch_fn] returned,
    whatever the status code, however the writes of the three files and
    the [save_extra] hook fail. *)
Theorem miss_returns_fetch_verbatim step endpoint payload fetch_fn cache_dir version ttl
  refresh se w rc resp :
  fst (load_from_cache refresh ttl [cache_dir; step; _hash_key endpoint payload version] w)
    = Ok None ->
  fetch_fn payload = Some (rc, resp) ->
  fst (query_nim_cached step endpoint payload fetch_fn cache_dir version ttl refresh se w)
    = Ok (rc, resp).
Proof.
  intros Hl Hf. rewrite query_unfold.
  destruct (load_from_cache _ _ _ w) as [r1 w1]. cbn in Hl. subst r1.
  destruct (fetch_and_persist_shape step endpoint (_hash_key endpoint payload version)
              [cache_dir; step; _hash_key endpoint payload version] payload fetch_fn version se w1)
    as (_ & _ & _ & _ & _ & Hres).
  apply Hres, Hf.
Qed.


(** A lookup with [ttl_seconds] set and [meta.json] a dict whose
    [created_at] (default [0]) converts to the float [c]: stale exactly
    when [now - c > ttl], [now] being the clock reading of the lookup. *)
Lemma query_ttl_meta_dict step endpoint payload fetch_fn cache_dir version se w ttl c s m d :
  let outdir := [cache_dir; step; _hash_key endpoint payload version] in
  w_stat_err w (result_file outdir) = false -> w_stat_err w (meta_file outdir) = false ->
  w_fs w (result_file outdir) = Some s ->
  w_fs w (meta_file outdir) = Some m -> w_read_err w (meta_file outdir) = false ->
  json_loads (w_loads_depth w) m = Some (VDict d) ->
  py_float_res (match dict_get d "created_at" with Some x => x | None => VInt 0 end) = Ok c ->
  let w1 := set_tick (set_log w (w_log w ++ [ERead (meta_file outdir)])%list) (S (w_tick w)) in
  query_nim_cached step endpoint payload fetch_fn cache_dir version (Some ttl) false se w
  = if float_gt_int (PrimFloat.sub (w_clock w (w_tick w)) c) ttl
    then fetch_and_persist step endpoint (_hash_key endpoint payload version) outdir payload
           fetch_fn version se w1
    else match _read_json (result_file outdir) w1 with
         | (Ok v, w2) => (Ok (200%Z, mark_from_cache v), w2)
         | (Raise _, w2) =>
             fetch_and_persist step endpoint (_hash_key endpoint payload version) outdir payload
               fetch_fn version se w2
         end.
Proof.
  intros outdir Sr Sm Fr Fm Rm Jm Hc w1. rewrite query_unfold. fold outdir.
  rewrite (load_ttl_meta_dict ttl outdir w s m d c Sr Sm Fr Fm Rm Jm Hc). cbv zeta.
  destruct (float_gt_int _ _); [reflexivity|].
  destruct (_read_json _ _) as [[v|e] w2]; reflexivity.
Qed.

(** C4: with [ttl_seconds=ttl] and [meta.json] holding a [created_at]
    that [float()] turns into [c], the entry is stale exactly when the
    age [now - c] (a float subtraction) is greater than [ttl]: then
    [fetch_fn] is called after reading [meta.json] and its result
    returned; otherwise the call reads [meta.json] and [result.json]
    only, returns [(200, result)] with the cache marker, and changes no
    file.  With [ttl = 60], [c = now - 61] is the first case and
    [c = now - 59] the second. *)
Theorem ttl_expiry_strict step endpoint payload fetch_fn cache_dir version se w ttl x c s v m d
  rc resp :
  let outdir := [cache_dir; step; _hash_key endpoint payload version] in
  w_stat_err w (result_file outdir) = false -> w_stat_err w (meta_file outdir) = false ->
  w_fs w (result_file outdir) = Some s -> w_read_err w (result_file outdir) = false ->
  json_loads (w_loads_depth w) s = Some v ->
  w_fs w (meta_file outdir) = Some m -> w_read_err w (meta_file outdir) = false ->
  json_loads (w_loads_depth w) m = Some (VDict d) -> dict_get d "created_at" = Some x ->
  py_float_res x = Ok c ->
  fetch_fn payload = Some (rc, resp) ->
  let res := query_nim_cached step endpoint payload fetch_fn cache_dir version (Some ttl) false se w in
  if float_gt_int (PrimFloat.sub (w_clock w (w_tick w)) c) ttl
  then fst res = Ok (rc, resp)
       /\ exists post, w_log (snd res)
                       = (w_log w ++ ERead (meta_file outdir) :: EFetch payload :: post)%list
  else fst res = Ok (200%Z, mark_from_cache v)
       /\ w_log (snd res) = (w_log w ++ [ERead (meta_file outdir); ERead (result_file outdir)])%list
       /\ w_fs (snd res) = w_fs w.
Proof.
  intros outdir Sr Sm Fr Rr Jr Fm Rm Jm Hx Hc Hf res. unfold res.
  assert (Hc' : py_float_res (match dict_get d "created_at" with Some x => x | None => VInt 0 end)
                = Ok c) by (rewrite Hx; exact Hc).
  rewrite (query_ttl_meta_dict step endpoint payload fetch_fn cache_dir version se w ttl c s m d
             Sr Sm Fr Fm Rm Jm Hc').
  destruct (float_gt_int _ _).
  - match goal with |- context [fetch_and_persist ?a ?b ?k ?o ?p ?f ?ve ?e ?w1] =>
      destruct (fetch_and_persist_shape a b k o p f ve e w1) as (k' & warn & _ & _ & Hlog & Hres)
    end.
    split; [apply Hres, Hf|]. eexists. rewrite Hlog. cbn. rewrite <- app_assoc. reflexivity.
  - rewrite (read_json_ok _ _ s v); cbn; auto.
    split; [reflexivity|]. split; [rewrite <- app_assoc; reflexivity|reflexivity].
Qed.

(** C9: when [meta.json] parses as a dict without [created_at], the age is
    [now - 0.0], i.e. [now]: as soon as the clock is past [ttl_seconds]
    the entry is stale, [fetch_fn] is called and its result returned. *)
Theorem missing_created_at_is_stale step endpoint payload fetch_fn cache_dir version se w ttl
  s m d rc resp :
  let outdir := [cache_dir; step; _hash_key endpoint payload version] in
  w_stat_err w (result_file outdir) = false -> w_stat_err w (meta_file outdir) = false ->
  w_fs w (result_file outdir) = Some s ->
  w_fs w (meta_file outdir) = Some m -> w_read_err w (meta_file outdir) = false ->
  json_loads (w_loads_depth w) m = Some (VDict d) -> dict_get d "created_at" = None ->
  float_gt_int (w_clock w (w_tick w)) ttl = true ->
  fetch_fn payload = Some (rc, resp) ->
  let res := query_nim_cached step endpoint payload fetch_fn cache_dir version (Some ttl) false se w in
  fst res = Ok (rc, resp)
  /\ exists post, w_log (snd res)
                  = (w_log w ++ ERead (meta_file outdir) :: EFetch payload :: post)%list.
Proof.
  intros outdir Sr Sm Fr Fm Rm Jm Hc Hlt Hf res. unfold res.
  assert (Hc' : py_float_res (match dict_get d "created_at" with Some x => x | None => VInt 0 end)
                = Ok (Z_to_float 0)) by (rewrite Hc; reflexivity).
  rewrite (query_ttl_meta_dict step endpoint payload fetch_fn cache_dir version se w ttl _ s m d
             Sr Sm Fr Fm Rm Jm Hc').
  rewrite float_sub_zero, Hlt.
  match goal with |- context [fetch_and_persist ?a ?b ?k ?o ?p ?f ?ve ?e ?w1] =>
    destruct (fetch_and_persist_shape a b k o p f ve e w1) as (k' & warn & _ & _ & Hlog & Hres)
  end.
  split; [apply Hres, Hf|]. eexists. rewrite Hlog. cbn. rewrite <- app_assoc. reflexivity.
Qed.


(** C10: the events of a call are some [ERead]s of the lookup, then either
    nothing (a hit, no [fetch_fn], no hook, or [result_path.exists()]
    raising), or [fetch_fn(payload)] followed by a prefix of [EWrite
    meta.json; EWrite payload.json; EWrite result.json; EHook outdir] and
    possibly the warning.  An [EWrite] is emitted only once its write
    completed, so the hook is called at most once, on a miss, after
    [fetch_fn] and after all three writes completed, and never without a
    hook. *)
Theorem save_extra_after_all_writes step endpoint payload fetch_fn cache_dir version ttl refresh
  se w :
  let outdir := [cache_dir; step; _hash_key endpoint payload version] in
  let res := query_nim_cached step endpoint payload fetch_fn cache_dir version ttl refresh se w in
  exists pre post, w_log (snd res) = (w_log w ++ pre ++ post)%list /\ forallb is_read pre = true
  /\ ((exists hit, fst (load_from_cache refresh ttl outdir w) = Ok (Some hit) /\ post = [])
      \/ (fst (load_from_cache refresh ttl outdir w) = Ok None
          /\ exists k (warn : bool), (k <= 4)%nat /\ (se = None -> k <= 3)%nat
             /\ post = EFetch payload :: firstn k (hook_trace outdir)
                       ++ (if warn then [EWarn] else []))
      \/ (fst (load_from_cache refresh ttl outdir w) = Raise OSError /\ post = [])).
Proof.
  intros outdir res. unfold res. rewrite query_unfold. fold outdir.
  destruct (load_no_raise refresh ttl outdir w) as [[o Ho]|(El & _ & _)].
  - pose proof (reads_only_load refresh ttl outdir w) as Hro.
    destruct (load_from_cache refresh ttl outdir w) as [r1 w1].
    cbn in Ho, Hro |- *. subst r1.
    destruct Hro as (_ & _ & _ & _ & _ & _ & _ & pre & Hpre & Hr).
    exists pre. destruct o as [hit|].
    + exists []. split; [rewrite app_nil_r; exact Hpre|]. split; [exact Hr|].
      left. exists hit. split; reflexivity.
    + destruct (fetch_and_persist_shape step endpoint (_hash_key endpoint payload version)
                  outdir payload fetch_fn version se w1)
        as (k & warn & Hk & Hse & Hlog & _).
      eexists. split; [rewrite Hlog, Hpre, <- app_assoc; reflexivity|]. split; [exact Hr|].
      right. left. split; [reflexivity|]. exists k, warn. repeat split; assumption.
  - rewrite El. exists [], []. cbn. split; [rewrite app_nil_r; reflexivity|].
    split; [reflexivity|]. right. right. split; reflexivity.
Qed.


(* ------------------------------------------------------------------ *)
(** ** Concrete instances of the theorems on [query_nim_cached] *)

(** C6 at a concrete input: every write fails, the hook raises, and the
    status code is [503]. *)
Lemma miss_returns_fetch_verbatim_witness :
  fst (query_nim_cached ex_step ex_endpoint ex_payload (fun _ => Some (503%Z, VStr "unavailable"))
         default_cache_dir None None false (Some (fun _ _ fs => (fs, true)))
         (ex_world [] no_err (fun _ => true)))
  = Ok (503%Z, VStr "unavailable").
Proof.
  apply (miss_returns_fetch_verbatim ex_step ex_endpoint ex_payload
           (fun _ => Some (503%Z, VStr "unavailable")) default_cache_dir None None false
           (Some (fun _ _ fs => (fs, true))) (ex_world [] no_err (fun _ => true)) 503%Z
           (VStr "unavailable"));
    vm_compute; reflexivity.
Defined.


(** C4 at [ttl_seconds=60], the lookup reading the clock at [1000.0]: an
    entry created at [939.0] (61 seconds before) is stale, one created at
    [941.0] (59 seconds before) is a hit. *)
Lemma ttl_expiry_strict_witness :
  let w939 := w_entry [("created_at", VFloat (Z_to_float 939))] in
  let w941 := w_entry [("created_at", VFloat (Z_to_float 941))] in
  (fst (query_nim_cached ex_step ex_endpoint ex_payload embed_fetch default_cache_dir None
          (Some 60%Z) false None w939)
   = Ok (200%Z, ex_response)
   /\ exists post,
        w_log (snd (query_nim_cached ex_step ex_endpoint ex_payload embed_fetch default_cache_dir
                      None (Some 60%Z) false None w939))
        = ([] ++ ERead (meta_file ex_outdir) :: EFetch ex_payload :: post)%list)
  /\ (fst (query_nim_cached ex_step ex_endpoint ex_payload embed_fetch default_cache_dir None
             (Some 60%Z) false None w941)
      = Ok (200%Z, mark_from_cache ex_response)
      /\ w_log (snd (query_nim_cached ex_step ex_endpoint ex_payload embed_fetch default_cache_dir
                       None (Some 60%Z) false None w941))
         = ([] ++ [ERead (meta_file ex_outdir); ERead (result_file ex_outdir)])%list
      /\ w_fs (snd (query_nim_cached ex_step ex_endpoint ex_payload embed_fetch default_cache_dir
                      None (Some 60%Z) false None w941))
         = w_fs w941).
Proof.
  intros w939 w941. split.
  - pose proof (ttl_expiry_strict ex_step ex_endpoint ex_payload embed_fetch default_cache_dir None
             None w939 60 (VFloat (Z_to_float 939)) (Z_to_float 939)
             (_stable_json_dumps ex_response) ex_response
             (_stable_json_dumps (VDict [("created_at", VFloat (Z_to_float 939))]))
             [("created_at", VFloat (Z_to_float 939))] 200 ex_response
             ltac:(vm_compute; reflexivity) ltac:(vm_compute; reflexivity)
             ltac:(vm_compute; reflexivity) ltac:(vm_compute; reflexivity)
             ltac:(vm_compute; reflexivity) ltac:(vm_compute; reflexivity)
             ltac:(vm_compute; reflexivity) ltac:(vm_compute; reflexivity)
             ltac:(vm_compute; reflexivity) ltac:(vm_compute; reflexivity)
             ltac:(vm_compute; reflexivity)) as H.
    assert (E : float_gt_int (PrimFloat.sub (w_clock w939 (w_tick w939)) (Z_to_float 939)) 60
                = true) by (vm_compute; reflexivity).
    cbv zeta in H. rewrite E in H. exact H.
  - pose proof (ttl_expiry_strict ex_step ex_endpoint ex_payload embed_fetch default_cache_dir None
             None w941 60 (VFloat (Z_to_float 941)) (Z_to_float 941)
             (_stable_json_dumps ex_response) ex_response
             (_stable_json_dumps (VDict [("created_at", VFloat (Z_to_float 941))]))
             [("created_at", VFloat (Z_to_float 941))] 200 ex_response
             ltac:(vm_compute; reflexivity) ltac:(vm_compute; reflexivity)
             ltac:(vm_compute; reflexivity) ltac:(vm_compute; reflexivity)
             ltac:(vm_compute; reflexivity) ltac:(vm_compute; reflexivity)
             ltac:(vm_compute; reflexivity) ltac:(vm_compute; reflexivity)
             ltac:(vm_compute; reflexivity) ltac:(vm_compute; reflexivity)
             ltac:(vm_compute; reflexivity)) as H.
    assert (E : float_gt_int (PrimFloat.sub (w_clock w941 (w_tick w941)) (Z_to_float 941)) 60
                = false) by (vm_compute; reflexivity).
    cbv zeta in H. rewrite E in H. exact H.
Defined.

(** C9 at a concrete input: [meta.json] is [{"step":"embed"}], the clock
    reads [1000.0] and [ttl_seconds=60]. *)
Lemma missing_created_at_is_stale_witness :
  fst (query_nim_cached ex_step ex_endpoint ex_payload embed_fetch default_cache_dir None
         (Some 60%Z) false None (w_entry [("step", VStr "embed")]))
  = Ok (200%Z, ex_response)
  /\ exists post,
       w_log (snd (query_nim_cached ex_step ex_endpoint ex_payload embed_fetch default_cache_dir
                     None (Some 60%Z) false None (w_entry [("step", VStr "embed")])))
       = ([] ++ ERead (meta_file ex_outdir) :: EFetch ex_payload :: post)%list.
Proof.
  exact (missing_created_at_is_stale ex_step ex_endpoint ex_payload embed_fetch default_cache_dir
           None None (w_entry [("step", VStr "embed")]) 60 (_stable_json_dumps ex_response)
           (_stable_json_dumps (VDict [("step", VStr "embed")])) [("step", VStr "embed")]
           200 ex_response
           ltac:(vm_compute; reflexivity) ltac:(vm_compute; reflexivity)
           ltac:(vm_compute; reflexivity) ltac:(vm_compute; reflexivity)
           ltac:(vm_compute; reflexivity) ltac:(vm_compute; reflexivity)
           ltac:(vm_compute; reflexivity) ltac:(vm_compute; reflexivity)
           ltac:(vm_compute; reflexivity)).
Defined.





(* ------------------------------------------------------------------ *)
(** ** Further properties of [query_nim_cached] *)

Lemma dict_set_get d k v k' :
  dict_get (dict_set d k v) k' = if String.eqb k k' then Some v else dict_get d k'.
Proof.
  induction d as [|[k0 v0] d IH]; simpl.
  - destruct (String.eqb k k'); reflexivity.
  - destruct (String.eqb_spec k0 k) as [->|Hne]; simpl.
    + destruct (String.eqb k k'); reflexivity.
    + rewrite IH. destruct (String.eqb_spec k k') as [->|]; [|reflexivity].
      destruct (String.eqb_spec k0 k'); [congruence|reflexivity].
Qed.

Lemma dict_set_keys d k v :
  map fst (dict_set d k v) = if existsb (String.eqb k) (map fst d) then map fst d else (map fst d ++ [k])%list.
Proof.
  induction d as [|[k0 v0] d IH]; simpl; [reflexivity|].
  destruct (String.eqb_spec k0 k) as [->|Hne]; simpl.
  - rewrite String.eqb_refl. reflexivity.
  - rewrite IH. destruct (String.eqb_spec k k0); [congruence|]. simpl.
    destruct (existsb (String.eqb k) (map fst d)); reflexivity.
Qed.

(** [resp["_from_cache"] = True] on a dict: the key then maps to [True],
    every other key keeps its value, an existing key keeps its place and a
    new one goes last. *)
Theorem mark_from_cache_dict d :
  exists d', mark_from_cache (VDict d) = VDict d'
  /\ dict_get d' "_from_cache" = Some (VBool true)
  /\ (forall k, k <> "_from_cache" -> dict_get d' k = dict_get d k)
  /\ map fst d' = if existsb (String.eqb "_from_cache") (map fst d) then map fst d
                  else (map fst d ++ ["_from_cache"])%list.
Proof.
  exists (dict_set d "_from_cache" (VBool true)). split; [reflexivity|].
  split; [rewrite dict_set_get; reflexivity|]. split; [|apply dict_set_keys].
  intros k Hk. rewrite dict_set_get. destruct (String.eqb_spec "_from_cache" k); [congruence|reflexivity].
Qed.

Lemma filter_fetch_reads l : forallb is_read l = true -> filter is_fetch l = [].
Proof.
  induction l as [|e l IH]; [reflexivity|]. simpl. intro H. apply andb_true_iff in H as [H1 H2].
  destruct e; try discriminate. simpl. apply IH, H2.
Qed.

Lemma filter_fetch_trace k (warn : bool) outdir :
  filter is_fetch (firstn k (hook_trace outdir) ++ (if warn then [EWarn] else [])) = [].
Proof.
  rewrite filter_app.
  assert (H : filter is_fetch (firstn k (hook_trace outdir)) = []).
  { destruct k as [|[|[|[|[|k]]]]]; reflexivity. }
  rewrite H. destruct warn; reflexivity.
Qed.

(** [fetch_fn] is called once on a miss and never on a hit; a hit returns
    the lookup's pair and changes no file; when [result_path.exists()]
    raises, the call raises the same error, with no event and no change. *)
Theorem query_fetch_once step endpoint payload fetch_fn cache_dir version ttl refresh se w :
  let outdir := [cache_dir; step; _hash_key endpoint payload version] in
  let res := query_nim_cached step endpoint payload fetch_fn cache_dir version ttl refresh se w in
  exists l, w_log (snd res) = (w_log w ++ l)%list
  /\ ((exists hit, fst (load_from_cache refresh ttl outdir w) = Ok (Some hit)
        /\ fst res = Ok hit /\ w_fs (snd res) = w_fs w /\ filter is_fetch l = [])
      \/ (fst (load_from_cache refresh ttl outdir w) = Ok None
          /\ filter is_fetch l = [EFetch payload])
      \/ (fst (load_from_cache refresh ttl outdir w) = Raise OSError
          /\ fst res = Raise OSError /\ w_fs (snd res) = w_fs w /\ l = [])).
Proof.
  intros outdir res. unfold res. rewrite query_unfold. fold outdir.
  destruct (load_no_raise refresh ttl outdir w) as [[o Ho]|(El & _ & _)].
  - pose proof (reads_only_load refresh ttl outdir w) as Hro.
    destruct (load_from_cache refresh ttl outdir w) as [r1 w1].
    cbn in Ho, Hro |- *. subst r1.
    destruct Hro as (Hfs & _ & _ & _ & _ & _ & _ & pre & Hpre & Hr).
    destruct o as [hit|].
    + exists pre. split; [exact Hpre|]. left. exists hit.
      repeat split; [exact Hfs|apply filter_fetch_reads, Hr].
    + destruct (fetch_and_persist_shape step endpoint (_hash_key endpoint payload version)
                  outdir payload fetch_fn version se w1)
        as (k & warn & _ & _ & Hlog & _).
      eexists. split; [rewrite Hlog, Hpre, <- app_assoc; reflexivity|].
      right. left. split; [reflexivity|].
      rewrite filter_app, filter_fetch_reads by exact Hr. simpl. rewrite filter_fetch_trace.
      reflexivity.
  - rewrite El. exists []. cbn. split; [rewrite app_nil_r; reflexivity|].
    right. right. repeat split.
Qed.

